(** * Todo-Indicator: a model of [todo_indicator.py] and its properties

    The tray indicator shows the lines of a todo.txt file as a menu, checks
    lines off by prefixing them with the marker [x ], drops checked lines,
    and is told about external changes of the file through a flag that a
    watcher callback sets and a periodic poll consumes.

    The model follows the semantics of Python 3: [print] is a function that
    writes its argument followed by a newline, [str] is a sequence of
    characters compared by code point, and [IOError] is [OSError].
    Characters are [ascii], read as the code points below 256; a file is
    the text that a text-mode [open] and [read] yield, its lines ended by
    LF.  What the host can refuse (opening, reading, decoding, renaming,
    creating, writing) is part of the state, so that every method is a
    function of the state it is called in. *)

From Stdlib Require Import Ascii String.
From Stdlib Require Import List ZArith Lia Bool Arith.
From Stdlib Require Import Sorting.Sorted Sorting.Permutation.
Import ListNotations.

Local Open Scope Z_scope.

(** ** Python strings *)

Module PyStr.

Definition str := list ascii.

(** A literal of the source. *)
Definition lit (s : string) : str := list_ascii_of_string s.
Arguments lit s%_string.

Definition LF : ascii := ascii_of_nat 10.
Definition nl : str := [LF].

(** [a == b] on [str]. *)
Fixpoint str_eqb (a b : str) : bool :=
  match a, b with
  | [], [] => true
  | x :: a', y :: b' => Ascii.eqb x y && str_eqb a' b'
  | _, _ => false
  end.

(** [a < b] on [str]: lexicographic on code points, a proper prefix first. *)
Fixpoint str_ltb (a b : str) : bool :=
  match a, b with
  | _, [] => false
  | [], _ :: _ => true
  | x :: a', y :: b' =>
      if (nat_of_ascii x <? nat_of_ascii y)%nat then true
      else if Ascii.eqb x y then str_ltb a' b'
      else false
  end.

(** [c.isspace()] for a character below 256: TAB, LF, VT, FF, CR, the four
    separators FS, GS, RS and US, the space, NEL and the no-break space. *)
Definition isspace (c : ascii) : bool :=
  let n := nat_of_ascii c in
  ((9 <=? n) && (n <=? 13) || (28 <=? n) && (n <=? 32)
   || (n =? 133) || (n =? 160))%nat.

Fixpoint lstrip (s : str) : str :=
  match s with
  | [] => []
  | c :: s' => if isspace c then lstrip s' else s
  end.

Definition rstrip (s : str) : str := rev (lstrip (rev s)).

(** [s.strip()] *)
Definition strip (s : str) : str := rstrip (lstrip s).

(** [s.startswith(sub)], the test [find] makes at each offset. *)
Fixpoint startswith (s sub : str) {struct sub} : bool :=
  match sub, s with
  | [], _ => true
  | _ :: _, [] => false
  | a :: sub', b :: s' => Ascii.eqb a b && startswith s' sub'
  end.

Fixpoint find_from (s sub : str) (i : Z) : Z :=
  if startswith s sub then i
  else match s with
       | [] => -1
       | _ :: s' => find_from s' sub (i + 1)
       end.

(** [s.find(sub)]: the lowest index at which [sub] occurs in [s], or -1. *)
Definition find (s sub : str) : Z := find_from s sub 0.

(** [s[:n]] *)
Definition slice_to (n : nat) (s : str) : str := firstn n s.

(** [s.split("\n")]: the pieces between the line feeds; never empty. *)
Fixpoint split_nl (s : str) : list str :=
  match s with
  | [] => [[]]
  | c :: s' =>
      if Ascii.eqb c LF then [] :: split_nl s'
      else match split_nl s' with
           | piece :: rest => (c :: piece) :: rest
           | [] => [[c]]
           end
  end.

(** The lines a file object yields when iterated: each keeps its line
    feed, the last one has none when the text does not end with one. *)
Fixpoint readlines (s : str) : list str :=
  match s with
  | [] => []
  | c :: s' =>
      if Ascii.eqb c LF then [c] :: readlines s'
      else match readlines s' with
           | line :: rest => (c :: line) :: rest
           | [] => [[c]]
           end
  end.

(** [sorted(l, key=key)]: the stable sort of [l] that compares keys with
    [<] only.  An element goes in front of the first element of the sorted
    rest whose key is not smaller than its own, so equal keys keep the
    order they had in [l]. *)
Fixpoint insert_by (key : str -> str) (x : str) (l : list str) : list str :=
  match l with
  | [] => [x]
  | y :: l' =>
      if str_ltb (key y) (key x) then y :: insert_by key x l' else x :: l
  end.

Definition sorted (key : str -> str) (l : list str) : list str :=
  fold_right (insert_by key) [] l.

End PyStr.

Import PyStr.

(** ** The indicator object and the world it runs in *)

(** The callbacks that [build_indicator] connects to menu items. *)
Inductive callback : Type :=
  | check_off_handler_cb
  | edit_handler_cb
  | clear_completed_handler_cb
  | refresh_handler_cb
  | quit_handler_cb.

(** A [Gtk.MenuItem] with its label, its sensitivity and the callback
    connected to its [activate] signal, or a [Gtk.SeparatorMenuItem]. *)
Inductive MenuItem : Type :=
  | Item (label : str) (sensitive : bool) (activate : option callback)
  | SeparatorMenuItem.

Definition get_label (mi : MenuItem) : str :=
  match mi with
  | Item l _ _ => l
  | SeparatorMenuItem => []
  end.

(** What the program does to the outside, in the order it does it. *)
Inductive effect : Type :=
  | Printed (text : str)          (* text that print wrote to sys.stdout *)
  | IndicatorNew                  (* appindicator.Indicator.new *)
  | SetMenu (menu : list MenuItem)  (* self.ind.set_menu(menu) *)
  | OsSystem (cmd : str)
  | NotifierStop
  | GtkMainQuit.

(** A filesystem event as the watcher delivers it. *)
Record Event : Type := { pathname : str; mask : Z }.

(** How reading the file fails when it yields no text: [open] raises
    [OSError]; or the file opens and [read] raises [OSError]; or the file
    opens and its bytes do not decode, so [read] raises
    [UnicodeDecodeError]. *)
Inductive read_failure : Type :=
  | OpenRaises
  | ReadRaises
  | DecodeRaises.

(** Why an in-place rewrite cannot run: renaming the file to its backup,
    creating the new file or writing to it raises [OSError]; or an earlier
    in-place run of the process broke off with its file open, and
    [fileinput.input] raises [RuntimeError]. *)
Inductive rewrite_failure : Type :=
  | RewriteRaises
  | InputActive.

(** What the host answers to the system calls of the program.  The first
    field matters when the file yields no text; the last two say what a
    rewrite that breaks off leaves behind: the text at the path of the file
    (none when the file is then gone or unreadable) and whether the next
    rewrite is blocked. *)
Record Host : Type := mkHost {
  read_fails : read_failure;
  rewrite_blocked : option rewrite_failure;
  left_by_failure : option str;
  blocked_after_failure : option rewrite_failure
}.

(** The attributes of [TodoIndicator], then the parts of the world that
    its methods read and write: the text that opening and reading the file
    at [todo_filename] yields ([None] when that fails), the effects
    performed so far, and the host. *)
Record State : Type := mkState {
  text_editor : str;
  task_filter : str;
  list_updated_flag : bool;
  todo_filename : str;
  todo_list : list str;
  ind : option (list MenuItem);
  todo_file : option str;
  effects : list effect;
  host : Host
}.

Definition set_list_updated_flag (b : bool) (s : State) : State :=
  mkState (text_editor s) (task_filter s) b (todo_filename s)
          (todo_list s) (ind s) (todo_file s) (effects s) (host s).

Definition set_todo_list (l : list str) (s : State) : State :=
  mkState (text_editor s) (task_filter s) (list_updated_flag s)
          (todo_filename s) l (ind s) (todo_file s) (effects s) (host s).

Definition set_ind (i : option (list MenuItem)) (s : State) : State :=
  mkState (text_editor s) (task_filter s) (list_updated_flag s)
          (todo_filename s) (todo_list s) i (todo_file s) (effects s) (host s).

Definition set_todo_file (f : option str) (s : State) : State :=
  mkState (text_editor s) (task_filter s) (list_updated_flag s)
          (todo_filename s) (todo_list s) (ind s) f (effects s) (host s).

Definition set_host (h : Host) (s : State) : State :=
  mkState (text_editor s) (task_filter s) (list_updated_flag s)
          (todo_filename s) (todo_list s) (ind s) (todo_file s) (effects s) h.

(** The world after an in-place rewrite broke off. *)
Definition failed_rewrite (s : State) : State :=
  mkState (text_editor s) (task_filter s) (list_updated_flag s)
          (todo_filename s) (todo_list s) (ind s)
          (left_by_failure (host s)) (effects s)
          (mkHost (read_fails (host s)) (blocked_after_failure (host s))
                  (left_by_failure (host s)) (blocked_after_failure (host s))).

Definition add_effect (e : effect) (s : State) : State :=
  mkState (text_editor s) (task_filter s) (list_updated_flag s)
          (todo_filename s) (todo_list s) (ind s) (todo_file s)
          (effects s ++ [e]) (host s).

(** ** Methods as state transformers that may raise *)

Inductive exn : Type :=
  | SystemExit (code : Z)   (* raised by sys.exit *)
  | OSError                 (* an I/O failure; IOError is the same class *)
  | UnicodeDecodeError      (* bytes that do not decode; not an OSError *)
  | RuntimeError.           (* fileinput.input while an input is active *)

Inductive result (A : Type) : Type :=
  | Returns (a : A) (s : State)
  | Raises (e : exn) (s : State).

Arguments Returns {A} a s.
Arguments Raises {A} e s.

Definition M (A : Type) : Type := State -> result A.

Definition ret {A : Type} (a : A) : M A := fun s => Returns a s.

Definition bind {A B : Type} (m : M A) (k : A -> M B) : M B :=
  fun s => match m s with
           | Returns a s' => k a s'
           | Raises e s' => Raises e s'
           end.

Definition raise {A : Type} (e : exn) : M A := fun s => Raises e s.
Definition get : M State := fun s => Returns s s.
Definition modify (f : State -> State) : M unit := fun s => Returns tt (f s).

Declare Scope py_scope.
Delimit Scope py_scope with py.
Notation "x <- m ;; k" := (bind m (fun x => k))
  (at level 61, m at next level, right associativity) : py_scope.
Notation "m ;; k" := (bind m (fun _ => k))
  (at level 61, right associativity) : py_scope.
Local Open Scope py_scope.

(** [print(x)] and [print(x,)]: the text that reaches the output stream.
    The comma inside the parentheses changes nothing: the argument is
    followed by a line feed.  (Python 2 would read [print(x,)] as a print
    statement of a tuple of one element and write its representation.) *)
Definition print_text (x : str) : str := x ++ nl.

Definition print (x : str) : M unit := modify (add_effect (Printed (print_text x))).
Definition sys_exit {A : Type} (code : Z) : M A := raise (SystemExit code).

Definition PANEL_ICON : str := lit "todo-indicator".
Definition DEFAULT_EDITOR : str := lit "xdg-open".

(** The completion marker: [a[:2] == 'x ']. *)
Definition marker : str := lit "x ".
Definition is_completed (a : str) : bool := str_eqb (slice_to 2 a) marker.

(** [check_item_for_filter] *)
Definition check_item_for_filter (task_filter : str) (list_item : str) : bool :=
  if find list_item task_filter =? -1 then false else true.

(** The key of the sort in [load_todo_file]:
    ['z' * 10 + a if a[:2] == 'x ' else a]. *)
Definition sort_key (a : str) : str :=
  if is_completed a then repeat "z"%char 10 ++ a else a.

(** What [load_todo_file] computes from the text it read. *)
Definition loaded_list (task_filter : str) (text : str) : list str :=
  let todo_list := split_nl text in
  sorted sort_key (filter (check_item_for_filter task_filter) todo_list).

(** The [try] encloses [open] and [f.read()]: an [IOError] from either
    reaches the [except] branch; a decoding error is no [IOError] and
    leaves the method as it is raised. *)
Definition load_todo_file : M unit :=
  fun s =>
    match todo_file s with
    | Some text =>
        modify (set_todo_list (loaded_list (task_filter s) text)) s
    | None =>
        match read_fails (host s) with
        | OpenRaises | ReadRaises =>
            (print (lit "Error opening file:" ++ nl ++ todo_filename s) ;;
             sys_exit 1) s
        | DecodeRaises => raise UnicodeDecodeError s
        end
    end.

(** [for line in fileinput.input(self.todo_filename, inplace=1): body]:
    [fileinput.input] raises when an input is still active; the first
    line read renames the file to its backup, opens the backup and creates
    the new file, which becomes the standard output while the loop runs, so
    that the new text of the file is what the body prints for each line, in
    order.  Each of these steps may raise, and so may reading; nothing
    catches it, and the file is then what the step that broke off left. *)
Definition fileinput_inplace (body : str -> str) : M unit :=
  fun s =>
    match rewrite_blocked (host s) with
    | Some InputActive => raise RuntimeError s
    | Some RewriteRaises => raise OSError (failed_rewrite s)
    | None =>
        match todo_file s with
        | Some text =>
            modify (set_todo_file (Some (concat (map body (readlines text))))) s
        | None =>
            raise (match read_fails (host s) with
                   | DecodeRaises => UnicodeDecodeError
                   | OpenRaises | ReadRaises => OSError
                   end)
                  (failed_rewrite s)
        end
    end.

Definition check_off_line (label line : str) : str :=
  if str_eqb (strip line) (strip label)
  then print_text (marker ++ line)
  else print_text line.

Definition check_off_item_with_label (label : str) : M unit :=
  fileinput_inplace (check_off_line label).

Definition remove_checked_line (line : str) : str :=
  if str_eqb (slice_to 2 line) marker then [] else print_text line.

Definition remove_checked_off_items : M unit :=
  fileinput_inplace remove_checked_line.

(** [self.menu_items] *)
Definition menu_items : list (str * callback) :=
  [ (lit "Edit todo.txt", edit_handler_cb);
    (lit "Clear completed", clear_completed_handler_cb);
    (lit "Refresh", refresh_handler_cb);
    (lit "Quit", quit_handler_cb) ].

Definition todo_menu_item (todo_item : str) : MenuItem :=
  Item todo_item (negb (is_completed todo_item)) (Some check_off_handler_cb).

Definition no_items : MenuItem :=
  Item (lit "[ No items. Click 'Edit' to add some! ]") false None.

Definition build_menu (todo_list : list str) : list MenuItem :=
  (match todo_list with
   | [] => [no_items]
   | _ :: _ => map todo_menu_item todo_list
   end)
  ++ [SeparatorMenuItem]
  ++ map (fun tc => Item (fst tc) true (Some (snd tc))) menu_items.

Definition set_menu (menu : list MenuItem) : M unit :=
  modify (fun s => add_effect (SetMenu menu) (set_ind (Some menu) s)).

Definition build_indicator : M unit :=
  s <- get ;;
  (match ind s with
   | None => modify (fun s => add_effect IndicatorNew (set_ind (Some []) s))
   | Some _ => ret tt
   end) ;;
  load_todo_file ;;
  s <- get ;;
  set_menu (build_menu (todo_list s)).

Definition update_if_todo_file_changed : M bool :=
  s <- get ;;
  (if list_updated_flag s
   then build_indicator ;; modify (set_list_updated_flag false)
   else ret tt) ;;
  ret true.

Definition process_inotify_event (event : Event) : M unit :=
  s <- get ;;
  if str_eqb (pathname event) (todo_filename s)
  then modify (set_list_updated_flag true)
  else ret tt.

Definition check_off_handler (menu_item : MenuItem) : M unit :=
  check_off_item_with_label (get_label menu_item) ;;
  build_indicator.

Definition edit_handler (menu_item : MenuItem) : M unit :=
  s <- get ;;
  modify (add_effect (OsSystem (text_editor s ++ lit " " ++ todo_filename s))).

Definition clear_completed_handler (menu_item : MenuItem) : M unit :=
  remove_checked_off_items ;;
  build_indicator.

Definition refresh_handler (menu_item : MenuItem) : M unit :=
  build_indicator.

Definition quit_handler (menu_item : MenuItem) : M unit :=
  modify (add_effect NotifierStop) ;;
  modify (add_effect GtkMainQuit).

Definition run_callback (cb : callback) : MenuItem -> M unit :=
  match cb with
  | check_off_handler_cb => check_off_handler
  | edit_handler_cb => edit_handler
  | clear_completed_handler_cb => clear_completed_handler
  | refresh_handler_cb => refresh_handler
  | quit_handler_cb => quit_handler
  end.

(** A click of the user on a menu item: the toolkit emits [activate] for a
    sensitive item and ignores the click on an insensitive one. *)
Definition click (mi : MenuItem) : M unit :=
  match mi with
  | Item _ true (Some cb) => run_callback cb mi
  | _ => ret tt
  end.

(** The number of menus handed to the indicator so far: one per rebuild. *)
Definition rebuilds (s : State) : nat :=
  length (filter (fun e => match e with SetMenu _ => true | _ => false end)
                 (effects s)).

(** [__init__], up to the first [build_indicator]; [todo_filename] is the
    absolute path already. *)
Definition init (todo_filename : str) (text_editor task_filter : option str)
    (file : option str) (h : Host) : result unit :=
  build_indicator
    (mkState
       (match text_editor with
        | Some (c :: e) => c :: e
        | _ => DEFAULT_EDITOR
        end)
       (match task_filter with
        | Some (c :: f) => c :: f
        | _ => []
        end)
       false todo_filename [] None file [] h).

(** ** Vocabulary of the statements *)

(** [sub] occurs in [s] as a contiguous run of characters. *)
Definition occurs (sub s : str) : Prop :=
  exists pre post, s = pre ++ sub ++ post.

(** No line feed inside. *)
Definition one_line (s : str) : Prop := ~ In LF s.

(** The lines of a file from the pieces of its text: every piece but the
    last gets its line feed back, and an empty last piece is no line. *)
Fixpoint with_ends (pieces : list str) : list str :=
  match pieces with
  | [] => []
  | [p] => match p with [] => [] | _ :: _ => [p] end
  | p :: (_ :: _) as rest => (p ++ nl) :: with_ends rest
  end.

(** [a <= b], as the sort sees it: [b < a] fails. *)
Definition str_le (a b : str) : Prop := str_ltb b a = false.

(** The order of the sort: by key. *)
Definition key_le (key : str -> str) (a b : str) : Prop :=
  str_le (key a) (key b).

Definition state_of {A : Type} (r : result A) : State :=
  match r with
  | Returns _ s => s
  | Raises _ s => s
  end.

(** A host that refuses nothing but to open a file that is not there. *)
Definition plain_host : Host := mkHost OpenRaises None None None.

(** The indicator once [__init__] has run on a file with the given text
    ([None]: no file to open), with no editor and the given filter. *)
Definition started (task_filter : option str) (file : option str) : State :=
  state_of (init (lit "/home/user/todo.txt") None task_filter file plain_host).

(** The text of the file after a method has run. *)
Definition file_after {A : Type} (r : result A) : option str :=
  todo_file (state_of r).

(** The state a successful [build_indicator] leaves. *)
Definition rebuilt (s : State) (text : str) : State :=
  let items := loaded_list (task_filter s) text in
  mkState (text_editor s) (task_filter s) (list_updated_flag s)
          (todo_filename s) items (Some (build_menu items)) (Some text)
          (effects s
           ++ match ind s with None => [IndicatorNew] | Some _ => [] end
           ++ [SetMenu (build_menu items)])
          (host s).

(** The state in which a failed [build_indicator] raises. *)
Definition exited (s : State) : State :=
  mkState (text_editor s) (task_filter s) (list_updated_flag s)
          (todo_filename s) (todo_list s)
          (match ind s with None => Some [] | Some m => Some m end) None
          (effects s
           ++ match ind s with None => [IndicatorNew] | Some _ => [] end
           ++ [Printed (lit "Error opening file:" ++ nl ++ todo_filename s ++ nl)])
          (host s).

(** The state in which [build_indicator] raises the decoding error. *)
Definition undecoded (s : State) : State :=
  mkState (text_editor s) (task_filter s) (list_updated_flag s)
          (todo_filename s) (todo_list s)
          (match ind s with None => Some [] | Some m => Some m end) None
          (effects s
           ++ match ind s with None => [IndicatorNew] | Some _ => [] end)
          (host s).

(** The rewrite that checking off is meant to be: each line that matches
    the label gets the marker in front, every other line stays as it is. *)
Definition check_off_expected (label text : str) : str :=
  concat (map (fun line =>
                 if str_eqb (strip line) (strip label)
                 then marker ++ line else line)
              (readlines text)).

(** The rewrite that clearing is meant to be: the lines that begin with
    the marker go, every other line stays as it is. *)
Definition remove_checked_expected (text : str) : str :=
  concat (filter (fun line => negb (is_completed line)) (readlines text)).

(** A todo file with the two items [a] and [b]. *)
Definition two_items : str := lit "a" ++ nl ++ lit "b" ++ nl.

(** A todo file with the items [a] and [c] and the completed item [b]. *)
Definition one_done : str :=
  lit "a" ++ nl ++ lit "x b" ++ nl ++ lit "c" ++ nl.

(** Every completed item comes after every item that is not completed. *)
Fixpoint completed_last (l : list str) : bool :=
  match l with
  | [] => true
  | a :: l' =>
      (if is_completed a then forallb is_completed l' else true)
      && completed_last l'
  end.



(** The indicator is running and an external write has set the flag. *)
Definition flagged : State :=
  set_list_updated_flag true (started None (Some two_items)).

(** The same, and the file has gone by the time the poll ticks. *)
Definition flagged_without_file : State := set_todo_file None flagged.

(** The same, and the bytes of the file have stopped to decode. *)
Definition flagged_undecodable : State :=
  set_host (mkHost DecodeRaises None None None) flagged_without_file.

(** The indicator is running and the file has gone since it was loaded. *)
Definition without_file : State :=
  set_todo_file None (started None (Some two_items)).

(** The indicator is running and the file opens, but reading it raises
    an I/O error. *)
Definition with_read_error : State :=
  set_host (mkHost ReadRaises None None None) without_file.

(** The indicator is running and the directory refuses the rewrite. *)
Definition not_rewritable : State :=
  set_host (mkHost OpenRaises (Some RewriteRaises) None None)
           (started None (Some two_items)).

(** The indicator showing a file whose one item is [a]. *)
Definition showing_a : State := started None (Some (lit "a" ++ nl)).

(** The indicator showing a file whose one item is completed. *)
Definition showing_done : State := started None (Some (lit "x a" ++ nl)).

(** The event is for the todo file: the test of the watcher callback. *)
Definition for_todo_file (s : State) (event : Event) : bool :=
  str_eqb (pathname event) (todo_filename s).

(** The watcher delivers the events one after the other. *)
Fixpoint deliver (events : list Event) : M unit :=
  match events with
  | [] => ret tt
  | event :: rest => process_inotify_event event ;; deliver rest
  end.

(** The menu on display is the menu of the loaded list, and the loaded
    list is what the loader makes of some text with the filter in use. *)
Definition menu_consistent (s : State) : Prop :=
  ind s = Some (build_menu (todo_list s))
  /\ exists text, todo_list s = loaded_list (task_filter s) text.

(** The attributes of the indicator are those of [s]. *)
Definition same_attributes (s s' : State) : Prop :=
  text_editor s' = text_editor s
  /\ task_filter s' = task_filter s
  /\ list_updated_flag s' = list_updated_flag s
  /\ todo_filename s' = todo_filename s
  /\ todo_list s' = todo_list s
  /\ ind s' = ind s.

(** [open] succeeds on the file, whatever reading it does. *)
Definition opens (s : State) : Prop :=
  todo_file s <> None \/ read_fails (host s) <> OpenRaises.

(** The attributes that [__init__] sets from the command line. *)
Definition same_config (s s' : State) : Prop :=
  text_editor s' = text_editor s
  /\ task_filter s' = task_filter s
  /\ todo_filename s' = todo_filename s.

(** The states of a run: [__init__] returns, and then the user clicks on
    entries of the menu, the poll ticks, the watcher calls back, each call
    returning, other programs write or remove the file, and the host
    changes what it refuses. *)
Inductive reachable (s0 : State) : State -> Prop :=
  | reach_start : reachable s0 s0
  | reach_click (s s' : State) (mi : MenuItem) :
      reachable s0 s -> click mi s = Returns tt s' -> reachable s0 s'
  | reach_tick (s s' : State) (b : bool) :
      reachable s0 s -> update_if_todo_file_changed s = Returns b s' ->
      reachable s0 s'
  | reach_event (s s' : State) (event : Event) :
      reachable s0 s -> process_inotify_event event s = Returns tt s' ->
      reachable s0 s'
  | reach_write (s : State) (file : option str) :
      reachable s0 s -> reachable s0 (set_todo_file file s)
  | reach_host (s : State) (h : Host) :
      reachable s0 s -> reachable s0 (set_host h s).

(** ** Facts about the string operations *)

Section StrFacts.

Lemma str_eqb_eq (a b : str) : str_eqb a b = true <-> a = b.
Proof.
  revert b; induction a as [|x a IH]; intros [|y b]; simpl;
    try (split; [discriminate | congruence]); try tauto.
  rewrite andb_true_iff, Ascii.eqb_eq, IH.
  split; [intros [-> ->]; reflexivity | intros E; injection E; auto].
Qed.

Lemma str_eqb_refl (a : str) : str_eqb a a = true.
Proof. apply str_eqb_eq; reflexivity. Qed.

Lemma str_eqb_neq (a b : str) : str_eqb a b = false <-> a <> b.
Proof.
  rewrite <- str_eqb_eq. destruct (str_eqb a b); split; congruence.
Qed.

Lemma startswith_spec (s sub : str) :
  startswith s sub = true <-> exists post, s = sub ++ post.
Proof.
  revert s; induction sub as [|a sub IH]; intros s; simpl.
  - split; [intros _; exists s; reflexivity | reflexivity].
  - destruct s as [|b s].
    + split; [discriminate | intros [post E]; discriminate].
    + rewrite andb_true_iff, Ascii.eqb_eq, IH. split.
      * intros [-> [post ->]]. exists post; reflexivity.
      * intros [post E]. injection E as -> ->. split; eauto.
Qed.

Lemma find_from_lower (s sub : str) (i : Z) :
  find_from s sub i = -1 \/ i <= find_from s sub i.
Proof.
  revert i; induction s as [|c s IH]; intros i; simpl.
  - destruct (startswith [] sub); [right; lia | left; reflexivity].
  - destruct (startswith (c :: s) sub); [right; lia|].
    destruct (IH (i + 1)) as [E | E]; [left; exact E | right; lia].
Qed.

Lemma find_from_none (s sub : str) (i : Z) :
  0 <= i -> (find_from s sub i = -1 <-> ~ occurs sub s).
Proof.
  revert i; induction s as [|c s IH]; intros i Hi.
  - simpl. destruct (startswith [] sub) eqn:E.
    + split; [lia|]. intros H; exfalso; apply H.
      apply startswith_spec in E as [post E]. exists [], post; exact E.
    + split; [|reflexivity]. intros _ [pre [post H]].
      destruct pre; [|discriminate]. simpl in H.
      assert (startswith [] sub = true) by (apply startswith_spec; eauto).
      congruence.
  - cbn [find_from]. destruct (startswith (c :: s) sub) eqn:E.
    + split; [lia|]. intros H; exfalso; apply H.
      apply startswith_spec in E as [post E]. exists [], post; exact E.
    + rewrite (IH (i + 1)) by lia. split.
      * intros H [pre [post H']]. destruct pre as [|p pre].
        -- assert (startswith (c :: s) sub = true)
             by (apply startswith_spec; eauto).
           congruence.
        -- injection H' as _ H'. apply H. exists pre, post; exact H'.
      * intros H [pre [post H']]. apply H.
        exists (c :: pre), post. rewrite H'. reflexivity.
Qed.

Lemma find_none (s sub : str) : find s sub = -1 <-> ~ occurs sub s.
Proof. unfold find. apply find_from_none. lia. Qed.

Lemma occurs_dec (sub s : str) : {occurs sub s} + {~ occurs sub s}.
Proof.
  destruct (Z.eq_dec (find s sub) (-1)) as [E | E].
  - right. apply find_none; exact E.
  - left. destruct (find_from_lower s sub 0) as [H | H]; [contradiction|].
    assert (N : ~ ~ occurs sub s) by (rewrite <- find_none; exact E).
    clear E H. revert N. unfold occurs.
    induction s as [|c s IH]; intros N.
    + destruct (startswith [] sub) eqn:S.
      * apply startswith_spec in S as [post S]. exists [], post; exact S.
      * exfalso; apply N. intros [pre [post H]].
        destruct pre; [|discriminate].
        assert (startswith [] sub = true) by (apply startswith_spec; eauto).
        congruence.
    + destruct (startswith (c :: s) sub) eqn:S.
      * apply startswith_spec in S as [post S]. exists [], post; exact S.
      * destruct IH as [pre [post H]].
        -- intros H; apply N. intros [pre [post H']].
           destruct pre as [|p pre].
           ++ assert (startswith (c :: s) sub = true)
                by (apply startswith_spec; eauto).
              congruence.
           ++ injection H' as _ H'. apply H. exists pre, post; exact H'.
        -- exists (c :: pre), post. rewrite H. reflexivity.
Qed.

Lemma check_item_for_filter_spec (flt item : str) :
  check_item_for_filter flt item = true <-> occurs flt item.
Proof.
  unfold check_item_for_filter.
  destruct (Z.eqb_spec (find item flt) (-1)) as [E | E].
  - apply find_none in E. split; [discriminate | contradiction].
  - split; [intros _ | reflexivity].
    destruct (occurs_dec flt item) as [H | H]; [exact H|].
    apply find_none in H. contradiction.
Qed.

Lemma occurs_empty (s : str) : occurs [] s.
Proof. exists [], s; reflexivity. Qed.

Lemma occurs_in_empty (sub : str) : occurs sub [] -> sub = [].
Proof.
  intros [pre [post H]]. symmetry in H.
  apply app_eq_nil in H as [_ H]. apply app_eq_nil in H as [H _]. exact H.
Qed.

Lemma occurs_app_l (sub s pre : str) : occurs sub s -> occurs sub (pre ++ s).
Proof.
  intros [p [q ->]]. exists (pre ++ p), q. rewrite app_assoc. reflexivity.
Qed.

End StrFacts.

(** ** Lines: [split], file iteration and [strip] *)

Section Lines.

Lemma split_nl_cons (s : str) : exists piece rest, split_nl s = piece :: rest.
Proof.
  destruct s as [|c s]; simpl; [eauto|].
  destruct (Ascii.eqb c LF); [eauto|].
  destruct (split_nl s); eauto.
Qed.

Lemma split_nl_one_line (s : str) : one_line s -> split_nl s = [s].
Proof.
  unfold one_line. induction s as [|c s IH]; intros H; [reflexivity|].
  simpl. destruct (Ascii.eqb_spec c LF) as [-> | N].
  - exfalso; apply H; left; reflexivity.
  - rewrite IH; [reflexivity|]. intros I; apply H; right; exact I.
Qed.

(** Splitting at a line feed splits the list of pieces. *)
Lemma split_nl_app (a b : str) :
  split_nl (a ++ LF :: b) = split_nl a ++ split_nl b.
Proof.
  induction a as [|c a IH]; simpl.
  - reflexivity.
  - destruct (Ascii.eqb c LF); rewrite IH; [reflexivity|].
    destruct (split_nl_cons a) as [p [r ->]]. reflexivity.
Qed.

Lemma split_nl_pieces (s piece : str) :
  In piece (split_nl s) -> one_line piece.
Proof.
  unfold one_line. revert piece; induction s as [|c s IH]; intros piece; simpl.
  - intros [<- | []]. intros [].
  - destruct (Ascii.eqb_spec c LF) as [-> | N].
    + intros [<- | H]; [intros [] | apply IH; exact H].
    + destruct (split_nl s) as [|p r] eqn:E.
      * intros [<- | []]. intros [H | []]. congruence.
      * intros [<- | H].
        -- intros [H | H]; [congruence|]. apply (IH p); [left; reflexivity | exact H].
        -- apply IH. right; exact H.
Qed.

Lemma readlines_split_nl (s : str) : readlines s = with_ends (split_nl s).
Proof.
  induction s as [|c s IH]; [reflexivity|].
  simpl. destruct (Ascii.eqb_spec c LF) as [-> | N].
  - rewrite IH. destruct (split_nl_cons s) as [p [r ->]]. reflexivity.
  - rewrite IH. destruct (split_nl_cons s) as [p [r ->]].
    destruct r as [|q r]; [destruct p|]; reflexivity.
Qed.

Lemma with_ends_In (pieces : list str) (piece : str) :
  In piece pieces -> piece <> [] ->
  In (piece ++ nl) (with_ends pieces) \/ In piece (with_ends pieces).
Proof.
  induction pieces as [|p r IH]; intros H N; [contradiction|].
  destruct r as [|q r].
  - destruct H as [-> | []]. right. destruct piece; [congruence | left; reflexivity].
  - destruct H as [-> | H].
    + left. left. reflexivity.
    + destruct (IH H N) as [I | I]; [left | right]; right; exact I.
Qed.

(** Every non-empty item that [split] yields is a line of the file, with
    or (for the last line only) without its line feed. *)
Lemma split_nl_readlines (s piece : str) :
  In piece (split_nl s) -> piece <> [] ->
  In (piece ++ nl) (readlines s) \/ In piece (readlines s).
Proof. rewrite readlines_split_nl. apply with_ends_In. Qed.

Lemma isspace_LF : isspace LF = true.
Proof. reflexivity. Qed.

Lemma lstrip_app (s t : str) : lstrip s <> [] -> lstrip (s ++ t) = lstrip s ++ t.
Proof.
  induction s as [|c s IH]; simpl; [congruence|].
  destruct (isspace c); [exact IH | reflexivity].
Qed.

Lemma lstrip_blank (s : str) (c : ascii) :
  lstrip s = [] -> isspace c = true -> lstrip (s ++ [c]) = [].
Proof.
  intros H Hc. induction s as [|d s IH]; simpl in *.
  - rewrite Hc. reflexivity.
  - destruct (isspace d); [auto | discriminate].
Qed.

(** A trailing whitespace character does not change what [strip] gives. *)
Lemma strip_trailing (s : str) (c : ascii) :
  isspace c = true -> strip (s ++ [c]) = strip s.
Proof.
  intros Hc. unfold strip, rstrip.
  destruct (lstrip s) as [|d u] eqn:E.
  - rewrite lstrip_blank by assumption. reflexivity.
  - rewrite lstrip_app by congruence. rewrite E.
    rewrite rev_app_distr. simpl rev at 1. simpl. rewrite Hc. reflexivity.
Qed.

Lemma strip_line (item : str) : strip (item ++ nl) = strip item.
Proof. apply strip_trailing, isspace_LF. Qed.

End Lines.

(** ** The order on strings and the sort *)

Section Order.

Lemma nat_of_ascii_inj (x y : ascii) : nat_of_ascii x = nat_of_ascii y -> x = y.
Proof.
  intros H. rewrite <- (ascii_nat_embedding x), <- (ascii_nat_embedding y).
  rewrite H. reflexivity.
Qed.

Ltac chars :=
  repeat match goal with
    | |- context [(?n <? ?m)%nat] => destruct (Nat.ltb_spec n m)
    | H : context [(?n <? ?m)%nat] |- _ => destruct (Nat.ltb_spec n m)
    | |- context [Ascii.eqb ?x ?y] => destruct (Ascii.eqb_spec x y); subst
    | H : context [Ascii.eqb ?x ?y] |- _ => destruct (Ascii.eqb_spec x y); subst
    end;
  try discriminate; try reflexivity; try lia.

Lemma str_ltb_irrefl (a : str) : str_ltb a a = false.
Proof.
  induction a as [|x a IH]; simpl; [reflexivity|].
  rewrite Nat.ltb_irrefl, Ascii.eqb_refl. exact IH.
Qed.

Lemma str_ltb_trans (a b c : str) :
  str_ltb a b = true -> str_ltb b c = true -> str_ltb a c = true.
Proof.
  revert b c; induction a as [|x a IH]; intros [|y b] [|z c]; simpl;
    try discriminate; try reflexivity.
  intros H1 H2. chars; eauto.
  all: try (exfalso;
            match goal with
            | N : ?u <> ?v |- _ =>
                apply N; apply nat_of_ascii_inj; lia
            end).
Qed.

Lemma str_ltb_total (a b : str) :
  str_ltb a b = false -> str_ltb b a = false -> a = b.
Proof.
  revert b; induction a as [|x a IH]; intros [|y b]; simpl;
    try discriminate; try reflexivity.
  intros H1 H2. chars.
  - f_equal. apply IH; assumption.
  - contradiction.
  - contradiction.
  - exfalso. apply n. apply nat_of_ascii_inj. lia.
Qed.

Lemma str_ltb_asym (a b : str) : str_ltb a b = true -> str_ltb b a = false.
Proof.
  intros H. destruct (str_ltb b a) eqn:E; [|reflexivity].
  rewrite <- (str_ltb_irrefl a). symmetry. eapply str_ltb_trans; eassumption.
Qed.

Lemma str_le_trans (a b c : str) : str_le a b -> str_le b c -> str_le a c.
Proof.
  unfold str_le. intros H1 H2.
  destruct (str_ltb c a) eqn:E; [|reflexivity].
  destruct (str_ltb a b) eqn:F.
  - rewrite <- H2. symmetry. eapply str_ltb_trans; eassumption.
  - rewrite (str_ltb_total a b F H1) in E. congruence.
Qed.

Lemma str_ltb_app (p a b : str) : str_ltb (p ++ a) (p ++ b) = str_ltb a b.
Proof.
  induction p as [|x p IH]; simpl; [reflexivity|].
  rewrite Nat.ltb_irrefl, Ascii.eqb_refl. exact IH.
Qed.

Variable key : str -> str.

Lemma insert_by_perm (x : str) (l : list str) :
  Permutation (x :: l) (insert_by key x l).
Proof.
  induction l as [|y l IH]; simpl; [reflexivity|].
  destruct (str_ltb (key y) (key x)); [|reflexivity].
  rewrite perm_swap. constructor. exact IH.
Qed.

Lemma sorted_perm (l : list str) : Permutation l (sorted key l).
Proof.
  induction l as [|x l IH]; simpl; [constructor|].
  rewrite <- insert_by_perm. constructor. exact IH.
Qed.

Lemma sorted_In (l : list str) (x : str) : In x (sorted key l) <-> In x l.
Proof.
  split; apply Permutation_in; [symmetry|]; apply sorted_perm.
Qed.

Lemma sorted_length (l : list str) : length (sorted key l) = length l.
Proof. symmetry. apply Permutation_length, sorted_perm. Qed.

Lemma insert_by_Sorted (x : str) (l : list str) :
  Sorted (key_le key) l -> Sorted (key_le key) (insert_by key x l).
Proof.
  induction l as [|y l IH]; intros S; simpl.
  - repeat constructor.
  - destruct (str_ltb (key y) (key x)) eqn:E.
    + inversion S as [|? ? S' Hd]; subst. constructor; [apply IH; exact S'|].
      destruct l as [|z l]; simpl.
      * constructor. apply str_ltb_asym. exact E.
      * destruct (str_ltb (key z) (key x)).
        -- inversion Hd; subst. constructor. assumption.
        -- constructor. apply str_ltb_asym. exact E.
    + constructor; [exact S|]. constructor. exact E.
Qed.

Lemma sorted_Sorted (l : list str) : Sorted (key_le key) (sorted key l).
Proof.
  induction l as [|x l IH]; simpl; [constructor|].
  apply insert_by_Sorted. exact IH.
Qed.

(** The result of [sorted] is ordered by key, every element against every
    later one. *)
Lemma sorted_StronglySorted (l : list str) :
  StronglySorted (key_le key) (sorted key l).
Proof.
  apply Sorted_StronglySorted; [|apply sorted_Sorted].
  intros a b c. apply str_le_trans.
Qed.

End Order.

Lemma StronglySorted_filter {A : Type} (R : A -> A -> Prop) (p : A -> bool)
    (l : list A) :
  StronglySorted R l -> StronglySorted R (filter p l).
Proof.
  induction 1 as [|x l S IH F]; simpl; [constructor|].
  destruct (p x); [|exact IH].
  constructor; [exact IH|].
  rewrite Forall_forall in *. intros y Hy.
  apply filter_In in Hy as [Hy _]. auto.
Qed.

Lemma StronglySorted_weaken {A : Type} (R Q : A -> A -> Prop) (l : list A) :
  (forall a b, In a l -> In b l -> R a b -> Q a b) ->
  StronglySorted R l -> StronglySorted Q l.
Proof.
  intros W S. induction S as [|x l S IH F]; [constructor|].
  constructor.
  - apply IH. intros a b Ha Hb. apply W; right; assumption.
  - rewrite Forall_forall in *. intros y Hy.
    apply W; [left; reflexivity | right; exact Hy | auto].
Qed.

(** ** Running the methods *)

Section Rewrites.

Lemma fileinput_inplace_text (body : str -> str) (s : State) (text : str) :
  rewrite_blocked (host s) = None ->
  todo_file s = Some text ->
  fileinput_inplace body s
  = Returns tt (set_todo_file (Some (concat (map body (readlines text)))) s).
Proof. intros W H. unfold fileinput_inplace. rewrite W, H. reflexivity. Qed.

(** A rewrite that cannot run raises, and none of the attributes of the
    indicator, nor the effects, is touched. *)
Lemma fileinput_inplace_raises (body : str -> str) (s : State) :
  rewrite_blocked (host s) <> None \/ todo_file s = None ->
  exists e s',
    fileinput_inplace body s = Raises e s'
    /\ (forall code, e <> SystemExit code)
    /\ text_editor s' = text_editor s /\ task_filter s' = task_filter s
    /\ list_updated_flag s' = list_updated_flag s
    /\ todo_filename s' = todo_filename s /\ todo_list s' = todo_list s
    /\ ind s' = ind s /\ effects s' = effects s.
Proof.
  intros H. unfold fileinput_inplace, raise.
  destruct (rewrite_blocked (host s)) as [[|]|].
  - eexists. eexists. split; [reflexivity|].
    split; [discriminate | repeat split].
  - eexists. eexists. split; [reflexivity|].
    split; [discriminate | repeat split].
  - destruct H as [H | H]; [contradiction|]. rewrite H.
    eexists. eexists. split; [reflexivity|].
    split; [destruct (read_fails (host s)); discriminate | repeat split].
Qed.

(** What [check_off_item_with_label] writes for one line: the line, with
    the marker in front when it matches, and then one more line feed. *)
Lemma check_off_line_text (label line : str) :
  check_off_line label line
  = (if str_eqb (strip line) (strip label) then marker ++ line else line)
    ++ nl.
Proof.
  unfold check_off_line, print_text.
  destruct (str_eqb (strip line) (strip label)); reflexivity.
Qed.

Lemma load_todo_file_opened (s : State) (text : str) :
  todo_file s = Some text ->
  load_todo_file s
  = Returns tt (set_todo_list (loaded_list (task_filter s) text) s).
Proof. intros H. unfold load_todo_file. rewrite H. reflexivity. Qed.

Lemma load_todo_file_failed (s : State) :
  todo_file s = None -> read_fails (host s) <> DecodeRaises ->
  load_todo_file s
  = Raises (SystemExit 1)
      (add_effect
         (Printed (lit "Error opening file:" ++ nl ++ todo_filename s ++ nl)) s).
Proof.
  intros H R. unfold load_todo_file. rewrite H.
  destruct (read_fails (host s)); [| |contradiction];
    unfold bind, print, print_text, modify, sys_exit, raise;
    rewrite <- !app_assoc; reflexivity.
Qed.

Lemma load_todo_file_undecodable (s : State) :
  todo_file s = None -> read_fails (host s) = DecodeRaises ->
  load_todo_file s = Raises UnicodeDecodeError s.
Proof. intros H R. unfold load_todo_file. rewrite H, R. reflexivity. Qed.

Lemma build_indicator_opened (s : State) (text : str) :
  todo_file s = Some text ->
  build_indicator s = Returns tt (rebuilt s text).
Proof.
  intros H. unfold build_indicator, bind, get, rebuilt.
  destruct s as [ed flt flag name items [menu|] file eff h]; simpl in *;
    subst file;
    unfold load_todo_file, modify, set_menu, modify; simpl;
    unfold add_effect, set_ind, set_todo_list; simpl;
    rewrite <- ?app_assoc; reflexivity.
Qed.

Lemma build_indicator_failed (s : State) :
  todo_file s = None -> read_fails (host s) <> DecodeRaises ->
  build_indicator s = Raises (SystemExit 1) (exited s).
Proof.
  intros H R. unfold build_indicator, bind, get, exited.
  destruct s as [ed flt flag name items [menu|] file eff h]; simpl in *;
    subst file;
    unfold load_todo_file, bind, print, print_text, modify, sys_exit, raise;
    simpl; destruct (read_fails h); try contradiction;
    unfold add_effect, set_ind; simpl;
    rewrite <- ?app_assoc; reflexivity.
Qed.

Lemma build_indicator_undecodable (s : State) :
  todo_file s = None -> read_fails (host s) = DecodeRaises ->
  build_indicator s = Raises UnicodeDecodeError (undecoded s).
Proof.
  intros H R. unfold build_indicator, bind, get, undecoded.
  destruct s as [ed flt flag name items [menu|] file eff h]; simpl in *;
    subst file; unfold load_todo_file, modify, raise; simpl; rewrite R;
    unfold add_effect, set_ind; simpl; rewrite ?app_nil_r; reflexivity.
Qed.

Lemma read_failure_cases (r : read_failure) :
  r <> DecodeRaises \/ r = DecodeRaises.
Proof. destruct r; [left | left | right]; congruence. Qed.

End Rewrites.

(** ** Line mutation: check off, clear completed *)

Section LineMutation.

(** What the code writes, for every file and label: the expected line
    followed by a second line feed, for every line of the file. *)
Lemma check_off_item_with_label_text (label text : str) (s : State) :
  rewrite_blocked (host s) = None ->
  todo_file s = Some text ->
  file_after (check_off_item_with_label label s)
  = Some (concat (map (fun line =>
                         (if str_eqb (strip line) (strip label)
                          then marker ++ line else line) ++ nl)
                      (readlines text))).
Proof.
  intros W H. unfold check_off_item_with_label.
  rewrite (fileinput_inplace_text _ _ _ W H). unfold file_after. simpl.
  f_equal. f_equal. apply map_ext. intros line. apply check_off_line_text.
Qed.

(** C1 (check-off alters only the matching lines), at the file [two_items]
    and the label [a]: the code writes a blank line after each line of the
    file, where the intended rewrite changes the first line only. *)
Theorem check_off_inserts_blank_lines :
  file_after (check_off_item_with_label (lit "a") (started None (Some two_items)))
  = Some (lit "x a" ++ nl ++ nl ++ lit "b" ++ nl ++ nl)
  /\ check_off_expected (lit "a") two_items = lit "x a" ++ nl ++ lit "b" ++ nl
  /\ readlines (lit "x a" ++ nl ++ nl ++ lit "b" ++ nl ++ nl)
     = [lit "x a" ++ nl; nl; lit "b" ++ nl; nl].
Proof. repeat split; reflexivity. Qed.

(** C2 (clearing leaves the other lines byte-identical), at the file
    [one_done]: the code drops the completed line and writes a blank line
    after each line it keeps. *)
Theorem remove_checked_inserts_blank_lines :
  file_after (remove_checked_off_items (started None (Some one_done)))
  = Some (lit "a" ++ nl ++ nl ++ lit "c" ++ nl ++ nl)
  /\ remove_checked_expected one_done = lit "a" ++ nl ++ lit "c" ++ nl.
Proof. split; reflexivity. Qed.

End LineMutation.

(** ** The loader *)

Section Loader.

(** C3 (completed items come last), at a file with the open item
    [~ someday] and the completed item [x done]: the key of the completed
    item, ten [z] and the item, is smaller than [~ someday], so the
    completed item is listed first. *)
Theorem load_puts_completed_before_tilde :
  loaded_list [] (lit "~ someday" ++ nl ++ lit "x done")
  = [lit "x done"; lit "~ someday"]
  /\ completed_last (loaded_list [] (lit "~ someday" ++ nl ++ lit "x done"))
     = false
  /\ str_ltb (sort_key (lit "x done")) (sort_key (lit "~ someday")) = true.
Proof. repeat split; reflexivity. Qed.

(** The part of the order that holds for every file: the list is sorted
    by key, so the open items are in string order among themselves, and
    so are the completed ones. *)
Lemma loaded_list_sorted (flt text : str) :
  StronglySorted (key_le sort_key) (loaded_list flt text)
  /\ StronglySorted str_le
       (filter (fun a => negb (is_completed a)) (loaded_list flt text))
  /\ StronglySorted str_le (filter is_completed (loaded_list flt text)).
Proof.
  assert (S := sorted_StronglySorted sort_key
                 (filter (check_item_for_filter flt) (split_nl text))).
  fold (loaded_list flt text) in S.
  split; [exact S|]. split.
  - apply (StronglySorted_filter _ (fun a => negb (is_completed a))) in S.
    revert S. apply StronglySorted_weaken.
    intros a b Ha Hb. apply filter_In in Ha as [_ Ha], Hb as [_ Hb].
    unfold key_le, sort_key.
    destruct (is_completed a), (is_completed b); try discriminate. auto.
  - apply (StronglySorted_filter _ is_completed) in S.
    revert S. apply StronglySorted_weaken.
    intros a b Ha Hb. apply filter_In in Ha as [_ Ha], Hb as [_ Hb].
    unfold key_le, sort_key, str_le. rewrite Ha, Hb.
    rewrite str_ltb_app. auto.
Qed.

(** C6 (empty lines never appear in the loaded list), at a file with the
    lines [a], an empty line and [b], loaded without a filter: the empty
    line and the empty piece after the last line feed are both listed. *)
Theorem load_keeps_empty_lines :
  loaded_list [] (lit "a" ++ nl ++ nl ++ lit "b" ++ nl)
  = [[]; []; lit "a"; lit "b"]
  /\ In [] (todo_list (started None (Some (lit "a" ++ nl ++ nl ++ lit "b" ++ nl))))
  /\ check_item_for_filter [] [] = true.
Proof.
  split; [reflexivity|]. split; [left; reflexivity | reflexivity].
Qed.

(** The loaded list has one item for each piece of the text that passes
    the filter; a filter that is not empty lets no empty piece pass. *)
Lemma loaded_list_length (flt text : str) :
  length (loaded_list flt text)
  = length (filter (check_item_for_filter flt) (split_nl text)).
Proof. apply sorted_length. Qed.

Lemma loaded_list_In (flt text item : str) :
  In item (loaded_list flt text)
  <-> In item (split_nl text) /\ occurs flt item.
Proof.
  unfold loaded_list. rewrite sorted_In, filter_In, check_item_for_filter_spec.
  reflexivity.
Qed.

Lemma loaded_list_nonempty_filter (flt text : str) :
  flt <> [] -> ~ In [] (loaded_list flt text).
Proof.
  intros N H. apply loaded_list_In in H as [_ H].
  apply occurs_in_empty in H. contradiction.
Qed.

End Loader.

(** ** The substring filter *)

Section Filter.




End Filter.

(** ** The watcher callback and the poll tick *)

Section Flag.

(** C5: the watcher callback returns, and afterwards the flag is set
    exactly when it was set before or the path of the event is the path of
    the todo file; an event for another path leaves the state as it was,
    and no attribute but the flag, nor the file, nor the effects, ever
    changes.  The kind of the event plays no part. *)
Theorem process_inotify_event_sets_flag (event : Event) (s : State) :
  exists s',
    process_inotify_event event s = Returns tt s'
    /\ (list_updated_flag s' = true
        <-> list_updated_flag s = true \/ pathname event = todo_filename s)
    /\ (pathname event = todo_filename s -> list_updated_flag s' = true)
    /\ (pathname event <> todo_filename s -> s' = s)
    /\ text_editor s' = text_editor s
    /\ task_filter s' = task_filter s
    /\ todo_filename s' = todo_filename s
    /\ todo_list s' = todo_list s
    /\ ind s' = ind s
    /\ todo_file s' = todo_file s
    /\ effects s' = effects s
    /\ host s' = host s.
Proof.
  unfold process_inotify_event, bind, get.
  destruct (str_eqb (pathname event) (todo_filename s)) eqn:E.
  - apply str_eqb_eq in E. exists (set_list_updated_flag true s).
    simpl. repeat split; auto. intros N; contradiction.
  - apply str_eqb_neq in E. exists s.
    repeat split; auto; tauto.
Qed.

(** C4, as stated, fails when the flag is set and the file cannot be
    opened: the tick neither returns nor clears the flag nor sets a menu. *)
Lemma tick_without_file_does_not_return :
  list_updated_flag flagged_without_file = true
  /\ ~ (exists s', update_if_todo_file_changed flagged_without_file
                   = Returns true s')
  /\ update_if_todo_file_changed flagged_without_file
     = Raises (SystemExit 1) (exited flagged_without_file)
  /\ list_updated_flag (exited flagged_without_file) = true
  /\ rebuilds (exited flagged_without_file) = rebuilds flagged_without_file.
Proof.
  split; [reflexivity|]. split; [|repeat split; reflexivity].
  intros [s' H]. discriminate H.
Qed.

(** C4, amended: with the flag unset the tick returns true and leaves the
    state as it is; with the flag set and a file that opens and reads it
    returns true after exactly one rebuild, with the flag cleared; with the
    flag set and a file whose opening or reading raises an I/O error it
    prints the message and ends the process with status 1, with no menu
    set and the flag still set; with the flag set and a file that does not
    decode, the decoding error leaves the tick uncaught, with nothing
    printed, no menu set and the flag still set. *)
Theorem update_if_todo_file_changed_tick (s : State) :
  (list_updated_flag s = false ->
     update_if_todo_file_changed s = Returns true s)
  /\ (list_updated_flag s = true -> forall text, todo_file s = Some text ->
        update_if_todo_file_changed s
        = Returns true (set_list_updated_flag false (rebuilt s text))
        /\ rebuilds (set_list_updated_flag false (rebuilt s text))
           = S (rebuilds s)
        /\ list_updated_flag (set_list_updated_flag false (rebuilt s text))
           = false
        /\ ind (set_list_updated_flag false (rebuilt s text))
           = Some (build_menu (loaded_list (task_filter s) text)))
  /\ (list_updated_flag s = true -> todo_file s = None ->
      read_fails (host s) <> DecodeRaises ->
        update_if_todo_file_changed s = Raises (SystemExit 1) (exited s)
        /\ rebuilds (exited s) = rebuilds s
        /\ list_updated_flag (exited s) = true
        /\ effects (exited s)
           = effects s
             ++ match ind s with None => [IndicatorNew] | Some _ => [] end
             ++ [Printed (lit "Error opening file:" ++ nl
                          ++ todo_filename s ++ nl)])
  /\ (list_updated_flag s = true -> todo_file s = None ->
      read_fails (host s) = DecodeRaises ->
        update_if_todo_file_changed s = Raises UnicodeDecodeError (undecoded s)
        /\ rebuilds (undecoded s) = rebuilds s
        /\ list_updated_flag (undecoded s) = true
        /\ effects (undecoded s)
           = effects s
             ++ match ind s with None => [IndicatorNew] | Some _ => [] end).
Proof.
  unfold update_if_todo_file_changed, bind, get.
  split; [|split; [|split]].
  - intros H. rewrite H. reflexivity.
  - intros H text F. rewrite H, (build_indicator_opened s text F).
    repeat split.
    unfold rebuilds. simpl. rewrite !filter_app, !length_app.
    destruct (ind s); simpl; lia.
  - intros H F R. rewrite H, (build_indicator_failed s F R).
    split; [reflexivity|]. split; [|split; [exact H|]].
    + unfold rebuilds. simpl. rewrite !filter_app, !length_app.
      destruct (ind s); simpl; lia.
    + reflexivity.
  - intros H F R. rewrite H, (build_indicator_undecodable s F R).
    split; [reflexivity|]. split; [|split; [exact H|]].
    + unfold rebuilds. simpl. rewrite !filter_app, !length_app.
      destruct (ind s); simpl; lia.
    + reflexivity.
Qed.

(** The four cases of the tick, at the running indicator. *)
Lemma update_if_todo_file_changed_tick_witness :
  update_if_todo_file_changed (started None (Some two_items))
  = Returns true (started None (Some two_items))
  /\ (update_if_todo_file_changed flagged
      = Returns true (set_list_updated_flag false (rebuilt flagged two_items))
      /\ rebuilds (set_list_updated_flag false (rebuilt flagged two_items))
         = S (rebuilds flagged))
  /\ update_if_todo_file_changed flagged_without_file
     = Raises (SystemExit 1) (exited flagged_without_file)
  /\ update_if_todo_file_changed flagged_undecodable
     = Raises UnicodeDecodeError (undecoded flagged_undecodable).
Proof.
  split; [|split; [|split]].
  - apply (update_if_todo_file_changed_tick (started None (Some two_items))).
    reflexivity.
  - destruct (update_if_todo_file_changed_tick flagged) as [_ [H _]].
    destruct (H eq_refl two_items eq_refl) as [E [R _]].
    split; [exact E | exact R].
  - destruct (update_if_todo_file_changed_tick flagged_without_file)
      as [_ [_ [H _]]].
    apply (H eq_refl eq_refl). discriminate.
  - destruct (update_if_todo_file_changed_tick flagged_undecodable)
      as [_ [_ [_ H]]].
    apply (H eq_refl eq_refl eq_refl).
Defined.

End Flag.

(** ** Errors *)

Section Errors.

(** C8, as stated, fails for a file that opens and cannot be read: the
    [try] encloses the read, so the load prints the message and ends the
    process all the same. *)
Lemma load_exits_when_read_fails :
  opens with_read_error
  /\ load_todo_file with_read_error
     = Raises (SystemExit 1)
         (add_effect
            (Printed (lit "Error opening file:" ++ nl
                      ++ lit "/home/user/todo.txt" ++ nl))
            with_read_error)
  /\ ~ (exists s', load_todo_file with_read_error = Returns tt s').
Proof.
  split; [right; discriminate|]. split; [reflexivity|].
  intros [s' H]. discriminate H.
Qed.

(** C8, amended: when opening the file or reading it raises an I/O error,
    the load prints the message and the path, changes nothing else and
    raises the exit with status 1, which is not zero; when the file opens
    and reads, the load returns with the list loaded and nothing printed;
    when the bytes of the file do not decode, the error leaves the load as
    it is raised.  No other method handles a failure: a rewrite that cannot
    run raises an error that is not an exit, with nothing printed. *)
Theorem load_todo_file_handles_open_failure (s : State) :
  (todo_file s = None -> read_fails (host s) <> DecodeRaises ->
     exists s',
       load_todo_file s = Raises (SystemExit 1) s'
       /\ 1 <> 0
       /\ effects s'
          = effects s
            ++ [Printed (lit "Error opening file:" ++ nl
                         ++ todo_filename s ++ nl)]
       /\ same_attributes s s'
       /\ todo_file s' = None)
  /\ (forall text, todo_file s = Some text ->
        exists s',
          load_todo_file s = Returns tt s'
          /\ todo_list s' = loaded_list (task_filter s) text
          /\ effects s' = effects s
          /\ todo_file s' = Some text
          /\ ind s' = ind s
          /\ list_updated_flag s' = list_updated_flag s)
  /\ (todo_file s = None -> read_fails (host s) = DecodeRaises ->
        load_todo_file s = Raises UnicodeDecodeError s)
  /\ (rewrite_blocked (host s) <> None \/ todo_file s = None ->
        forall label,
        exists e1 s1 e2 s2,
          check_off_item_with_label label s = Raises e1 s1
          /\ remove_checked_off_items s = Raises e2 s2
          /\ (forall code, e1 <> SystemExit code)
          /\ (forall code, e2 <> SystemExit code)
          /\ effects s1 = effects s /\ effects s2 = effects s
          /\ same_attributes s s1 /\ same_attributes s s2).
Proof.
  split; [|split; [|split]].
  - intros H R. rewrite (load_todo_file_failed s H R).
    eexists. split; [reflexivity|]. split; [lia|].
    split; [reflexivity|]. split; [repeat split | exact H].
  - intros text H. rewrite (load_todo_file_opened s text H).
    eexists. split; [reflexivity|]. repeat split. exact H.
  - apply load_todo_file_undecodable.
  - intros H label.
    destruct (fileinput_inplace_raises (check_off_line label) s H)
      as [e1 [s1 [E1 [N1 [A1 [A2 [A3 [A4 [A5 [A6 F1]]]]]]]]]].
    destruct (fileinput_inplace_raises remove_checked_line s H)
      as [e2 [s2 [E2 [N2 [B1 [B2 [B3 [B4 [B5 [B6 F2]]]]]]]]]].
    exists e1, s1, e2, s2. unfold same_attributes.
    repeat split; assumption.
Qed.

(** The load with the file gone, in place, and undecodable; the rewrites
    in a directory that refuses them. *)
Lemma load_todo_file_handles_open_failure_witness :
  (exists s',
     load_todo_file without_file = Raises (SystemExit 1) s'
     /\ effects s'
        = effects without_file
          ++ [Printed (lit "Error opening file:" ++ nl
                       ++ lit "/home/user/todo.txt" ++ nl)])
  /\ (exists s',
        load_todo_file (started None (Some two_items)) = Returns tt s'
        /\ todo_list s' = [[]; lit "a"; lit "b"])
  /\ load_todo_file flagged_undecodable
     = Raises UnicodeDecodeError flagged_undecodable
  /\ exists e s',
       remove_checked_off_items not_rewritable = Raises e s'
       /\ effects s' = effects not_rewritable.
Proof.
  split; [|split; [|split]].
  - destruct (load_todo_file_handles_open_failure without_file) as [H _].
    destruct H as [s' [E [_ [P _]]]]; [reflexivity | discriminate |].
    exists s'. split; [exact E | exact P].
  - destruct (load_todo_file_handles_open_failure
                (started None (Some two_items))) as [_ [H _]].
    destruct (H two_items eq_refl) as [s' [E [L _]]].
    exists s'. split; [exact E | exact L].
  - destruct (load_todo_file_handles_open_failure flagged_undecodable)
      as [_ [_ [H _]]].
    apply H; reflexivity.
  - destruct (load_todo_file_handles_open_failure not_rewritable)
      as [_ [_ [_ H]]].
    assert (B : rewrite_blocked (host not_rewritable) <> None)
      by (unfold not_rewritable, set_host; cbn [host rewrite_blocked];
          discriminate).
    destruct (H (or_introl B) [])
      as [e1 [s1 [e2 [s2 [_ [E [_ [_ [_ [P _]]]]]]]]]].
    exists e2, s2. split; [exact E | exact P].
Defined.

End Errors.

(** ** Marking an item *)

Section Click.

Lemma one_line_marked (item : str) : one_line item -> one_line (marker ++ item).
Proof.
  unfold one_line. intros H I. apply in_app_or in I as [I | I]; [|auto].
  simpl in I. destruct I as [I | [I | []]]; vm_compute in I; discriminate I.
Qed.

(** Text printed line by line is empty or ends with a line feed. *)
Lemma concat_printed (chunks : list str) :
  (forall c, In c chunks -> exists b, c = b ++ nl) ->
  concat chunks = [] \/ exists t, concat chunks = t ++ nl.
Proof.
  induction chunks as [|c chunks IH] using rev_ind; intros H; [left; reflexivity|].
  right. destruct (H c) as [b ->]; [apply in_or_app; right; left; reflexivity|].
  rewrite concat_app. simpl. rewrite app_nil_r.
  exists (concat chunks ++ b). rewrite app_assoc. reflexivity.
Qed.

(** A chunk [body] + LF printed after whole lines is a piece of the text. *)
Lemma split_nl_printed (before : list str) (body rest : str) :
  (forall c, In c before -> exists b, c = b ++ nl) ->
  one_line body ->
  In body (split_nl (concat before ++ (body ++ LF :: rest))).
Proof.
  intros H B. destruct (concat_printed before H) as [-> | [t ->]].
  - simpl. rewrite split_nl_app, (split_nl_one_line body B). left; reflexivity.
  - unfold nl. rewrite <- app_assoc. simpl.
    rewrite split_nl_app. apply in_or_app. right.
    rewrite split_nl_app, (split_nl_one_line body B). left; reflexivity.
Qed.

(** Checking off an item of the file leaves the marked item in the file. *)
Lemma check_off_marks (text item : str) :
  In item (split_nl text) -> item <> [] ->
  In (marker ++ item)
     (split_nl (concat (map (check_off_line item) (readlines text)))).
Proof.
  intros I N.
  assert (exists line tail,
             In line (readlines text)
             /\ check_off_line item line = (marker ++ item) ++ LF :: tail)
    as [line [tail [L E]]].
  { destruct (split_nl_readlines text item I N) as [L | L].
    - exists (item ++ nl), nl. split; [exact L|].
      unfold check_off_line, print_text.
      rewrite strip_line, str_eqb_refl. unfold nl.
      rewrite <- !app_assoc. reflexivity.
    - exists item, []. split; [exact L|].
      unfold check_off_line, print_text. rewrite str_eqb_refl. reflexivity. }
  apply in_split in L as [l1 [l2 ->]].
  rewrite map_app, concat_app. simpl. rewrite E, <- app_assoc.
  apply split_nl_printed.
  - intros c C. apply in_map_iff in C as [l [<- _]].
    rewrite check_off_line_text. eauto.
  - apply one_line_marked. apply (split_nl_pieces text). exact I.
Qed.

Lemma marked_not_empty (item : str) : marker ++ item <> [].
Proof. discriminate. Qed.

Lemma check_off_handler_opened (s : State) (text label : str) (mi : MenuItem) :
  rewrite_blocked (host s) = None ->
  todo_file s = Some text -> get_label mi = label ->
  check_off_handler mi s
  = Returns tt
      (rebuilt
         (set_todo_file
            (Some (concat (map (check_off_line label) (readlines text)))) s)
         (concat (map (check_off_line label) (readlines text)))).
Proof.
  intros W F L. unfold check_off_handler, bind, check_off_item_with_label.
  rewrite L, (fileinput_inplace_text _ _ _ W F).
  apply build_indicator_opened. reflexivity.
Qed.

End Click.

(** ** The items of a rewritten file *)

Section Pieces.

Lemma split_nl_line (body : str) :
  one_line body -> split_nl (body ++ nl) = [body; []].
Proof.
  intros B. unfold nl. rewrite split_nl_app, (split_nl_one_line body B).
  reflexivity.
Qed.

(** The pieces of a text printed line by line come from the lines. *)
Lemma split_nl_concat_inv (chunks : list str) (p : str) :
  (forall c, In c chunks -> exists b, c = b ++ nl) ->
  In p (split_nl (concat chunks)) ->
  p = [] \/ exists b, In (b ++ nl) chunks /\ In p (split_nl b).
Proof.
  induction chunks as [|c chunks IH]; intros H I.
  - left. destruct I as [<- | []]. reflexivity.
  - destruct (H c (or_introl eq_refl)) as [b ->].
    simpl in I. unfold nl in I. rewrite <- app_assoc in I. simpl in I.
    rewrite split_nl_app in I. apply in_app_or in I as [I | I].
    + right. exists b. split; [left; reflexivity | exact I].
    + destruct IH as [-> | [b' [C P]]];
        [intros c' C'; apply H; right; exact C' | exact I | left; reflexivity |].
      right. exists b'. split; [right; exact C | exact P].
Qed.

(** Such a text always has the empty piece after its last line feed. *)
Lemma split_nl_concat_empty (chunks : list str) :
  (forall c, In c chunks -> exists b, c = b ++ nl) ->
  In [] (split_nl (concat chunks)).
Proof.
  intros H. destruct (concat_printed chunks H) as [-> | [t ->]].
  - left; reflexivity.
  - unfold nl. rewrite split_nl_app. apply in_or_app. right. left. reflexivity.
Qed.

Lemma with_ends_inv (pieces : list str) (line : str) :
  In line (with_ends pieces) ->
  exists body, In body pieces /\ (line = body ++ nl \/ line = body).
Proof.
  induction pieces as [|p r IH]; intros I; [contradiction|].
  destruct r as [|q r].
  - destruct p; [contradiction|]. destruct I as [<- | []].
    eexists. split; [left; reflexivity | right; reflexivity].
  - destruct I as [<- | I].
    + exists p. split; [left; reflexivity | left; reflexivity].
    + destruct (IH I) as [body [B E]]. exists body. split; [right; exact B | exact E].
Qed.

(** A line of the file is a piece of its text, with or without the line
    feed. *)
Lemma readlines_inv (text line : str) :
  In line (readlines text) ->
  exists body, In body (split_nl text) /\ (line = body ++ nl \/ line = body).
Proof. rewrite readlines_split_nl. apply with_ends_inv. Qed.

Lemma is_completed_line (body : str) :
  is_completed (body ++ nl) = is_completed body.
Proof.
  destruct body as [|a [|b r]]; [reflexivity | | reflexivity].
  unfold is_completed. simpl. rewrite !andb_false_r. reflexivity.
Qed.

Lemma is_completed_marked (item : str) : is_completed (marker ++ item) = true.
Proof. reflexivity. Qed.

(** A chunk printed for a line of the list shows as a piece. *)
Lemma printed_piece (f : str -> str) (lines : list str) (line out tail : str) :
  (forall l, exists b, f l = b ++ nl) ->
  In line lines -> f line = out ++ LF :: tail -> one_line out ->
  In out (split_nl (concat (map f lines))).
Proof.
  intros H L E O. apply in_split in L as [l1 [l2 ->]].
  rewrite map_app, concat_app. simpl. rewrite E, <- app_assoc.
  apply split_nl_printed; [|exact O].
  intros c C. apply in_map_iff in C as [l [<- _]]. apply H.
Qed.

Lemma check_off_line_printed (label line : str) :
  exists b, check_off_line label line = b ++ nl.
Proof. rewrite check_off_line_text. eauto. Qed.

(** The item that checking off with [label] makes of the item [body]. *)
Lemma check_off_pieces_inv (label text p : str) :
  In p (split_nl (concat (map (check_off_line label) (readlines text)))) ->
  p = []
  \/ exists body,
       In body (split_nl text)
       /\ p = if str_eqb (strip body) (strip label)
              then marker ++ body else body.
Proof.
  intros I. apply split_nl_concat_inv in I as [-> | [b [C P]]].
  - left; reflexivity.
  - apply in_map_iff in C as [line [E L]].
    rewrite check_off_line_text in E. apply app_inv_tail in E.
    destruct (readlines_inv text line L) as [body [B [-> | ->]]].
    + rewrite strip_line in E.
      assert (O : one_line body) by (apply (split_nl_pieces text); exact B).
      destruct (str_eqb (strip body) (strip label)) eqn:M; subst b.
      * rewrite app_assoc, split_nl_line in P by (apply one_line_marked; exact O).
        destruct P as [<- | [<- | []]]; [right | left; reflexivity].
        exists body. rewrite M. split; [exact B | reflexivity].
      * rewrite split_nl_line in P by exact O.
        destruct P as [<- | [<- | []]]; [right | left; reflexivity].
        exists body. rewrite M. split; [exact B | reflexivity].
    + assert (O : one_line body) by (apply (split_nl_pieces text); exact B).
      right. exists body. split; [exact B|].
      destruct (str_eqb (strip body) (strip label)); subst b.
      * rewrite split_nl_one_line in P by (apply one_line_marked; exact O).
        destruct P as [<- | []]. reflexivity.
      * rewrite split_nl_one_line in P by exact O.
        destruct P as [<- | []]. reflexivity.
  - intros c C. apply in_map_iff in C as [l [<- _]].
    apply check_off_line_printed.
Qed.

Lemma check_off_pieces (label text body : str) :
  In body (split_nl text) -> body <> [] ->
  In (if str_eqb (strip body) (strip label) then marker ++ body else body)
     (split_nl (concat (map (check_off_line label) (readlines text)))).
Proof.
  intros B N.
  assert (O : one_line body) by (apply (split_nl_pieces text); exact B).
  assert (exists line tail,
             In line (readlines text)
             /\ check_off_line label line
                = (if str_eqb (strip body) (strip label)
                   then marker ++ body else body) ++ LF :: tail)
    as [line [tail [L E]]].
  { destruct (split_nl_readlines text body B N) as [L | L].
    - exists (body ++ nl), nl. split; [exact L|].
      rewrite check_off_line_text, strip_line.
      destruct (str_eqb (strip body) (strip label)); unfold nl;
        rewrite <- ?app_assoc; reflexivity.
    - exists body, []. split; [exact L|].
      rewrite check_off_line_text. reflexivity. }
  apply (printed_piece _ _ line _ tail);
    [intros l; apply check_off_line_printed | exact L | exact E |].
  destruct (str_eqb (strip body) (strip label));
    [apply one_line_marked|]; exact O.
Qed.

Lemma check_off_pieces_empty (label text : str) :
  In [] (split_nl (concat (map (check_off_line label) (readlines text)))).
Proof.
  apply split_nl_concat_empty.
  intros c C. apply in_map_iff in C as [l [<- _]]. apply check_off_line_printed.
Qed.

(** Clearing prints the lines that are not completed. *)
Lemma remove_checked_as_filter (lines : list str) :
  concat (map remove_checked_line lines)
  = concat (map print_text
              (filter (fun line => negb (is_completed line)) lines)).
Proof.
  induction lines as [|line lines IH]; [reflexivity|].
  simpl. unfold remove_checked_line at 1.
  change (str_eqb (slice_to 2 line) marker) with (is_completed line).
  destruct (is_completed line); simpl; rewrite IH; reflexivity.
Qed.

Lemma remove_checked_pieces_inv (text p : str) :
  In p (split_nl (concat (map remove_checked_line (readlines text)))) ->
  p = [] \/ (In p (split_nl text) /\ is_completed p = false).
Proof.
  rewrite remove_checked_as_filter. intros I.
  apply split_nl_concat_inv in I as [-> | [b [C P]]].
  - left; reflexivity.
  - apply in_map_iff in C as [line [E L]].
    unfold print_text in E. apply app_inv_tail in E. subst b.
    apply filter_In in L as [L K]. apply negb_true_iff in K.
    destruct (readlines_inv text line L) as [body [B [-> | ->]]].
    + assert (O : one_line body) by (apply (split_nl_pieces text); exact B).
      rewrite is_completed_line in K. rewrite split_nl_line in P by exact O.
      destruct P as [<- | [<- | []]]; [right; split; assumption | left; reflexivity].
    + assert (O : one_line body) by (apply (split_nl_pieces text); exact B).
      rewrite split_nl_one_line in P by exact O.
      destruct P as [<- | []]. right; split; assumption.
  - intros c C. apply in_map_iff in C as [l [<- _]].
    unfold print_text. eauto.
Qed.

Lemma remove_checked_pieces (text body : str) :
  In body (split_nl text) -> body <> [] -> is_completed body = false ->
  In body (split_nl (concat (map remove_checked_line (readlines text)))).
Proof.
  intros B N K. rewrite remove_checked_as_filter.
  assert (O : one_line body) by (apply (split_nl_pieces text); exact B).
  destruct (split_nl_readlines text body B N) as [L | L].
  - apply (printed_piece _ _ (body ++ nl) _ nl);
      [intros l; unfold print_text; eauto | | | exact O].
    + apply filter_In. split; [exact L|].
      rewrite is_completed_line, K. reflexivity.
    + unfold print_text, nl. rewrite <- app_assoc. reflexivity.
  - apply (printed_piece _ _ body _ []);
      [intros l; unfold print_text; eauto | | reflexivity | exact O].
    apply filter_In. split; [exact L|]. rewrite K. reflexivity.
Qed.

Lemma remove_checked_pieces_empty (text : str) :
  In [] (split_nl (concat (map remove_checked_line (readlines text)))).
Proof.
  rewrite remove_checked_as_filter. apply split_nl_concat_empty.
  intros c C. apply in_map_iff in C as [l [<- _]]. unfold print_text. eauto.
Qed.

End Pieces.

(** ** What the menu lists after a rewrite *)

Section HandlerItems.

Lemma clear_completed_handler_opened (s : State) (text : str) (mi : MenuItem) :
  rewrite_blocked (host s) = None ->
  todo_file s = Some text ->
  clear_completed_handler mi s
  = Returns tt
      (rebuilt
         (set_todo_file
            (Some (concat (map remove_checked_line (readlines text)))) s)
         (concat (map remove_checked_line (readlines text)))).
Proof.
  intros W F. unfold clear_completed_handler, bind, remove_checked_off_items.
  rewrite (fileinput_inplace_text _ _ _ W F).
  apply build_indicator_opened. reflexivity.
Qed.

Lemma occurs_in_empty_iff (flt : str) : occurs flt [] <-> flt = [].
Proof.
  split; [apply occurs_in_empty | intros ->; apply occurs_empty].
Qed.

Lemma strip_neq_eqb (a b : str) :
  strip a <> strip b -> str_eqb (strip a) (strip b) = false.
Proof. apply str_eqb_neq. Qed.

(** With a file that reads and a rewrite that can run, "Clear completed"
    returns, and the menu then lists no completed item, keeps every item
    that was listed and is not completed, and lists nothing new but,
    without a filter, the empty item. *)
Theorem clear_completed_handler_items
    (s : State) (text : str) (mi : MenuItem) :
  rewrite_blocked (host s) = None ->
  todo_file s = Some text ->
  exists s',
    clear_completed_handler mi s = Returns tt s'
    /\ ind s' = Some (build_menu (todo_list s'))
    /\ forall p,
         In p (todo_list s')
         <-> is_completed p = false
             /\ (In p (loaded_list (task_filter s) text)
                 \/ (p = [] /\ task_filter s = [])).
Proof.
  intros W F. rewrite (clear_completed_handler_opened s text mi W F).
  eexists. split; [reflexivity|]. split; [reflexivity|].
  intros p. cbn [rebuilt todo_list task_filter set_todo_file].
  rewrite !loaded_list_In. split.
  - intros [I O]. apply remove_checked_pieces_inv in I as [-> | [I K]].
    + split; [reflexivity|]. right. split; [reflexivity|].
      apply occurs_in_empty_iff. exact O.
    + split; [exact K|]. left. split; assumption.
  - intros [K [[I O] | [-> E]]].
    + split; [|exact O]. destruct p as [|c p].
      * apply remove_checked_pieces_empty.
      * apply remove_checked_pieces; [exact I | discriminate | exact K].
    + split; [apply remove_checked_pieces_empty|].
      rewrite E. apply occurs_empty.
Qed.

(** The file shows [a], the completed [x b] and [c]; after the click only
    [a], [c] and the empty item are listed. *)
Lemma clear_completed_handler_items_witness :
  exists s',
    clear_completed_handler SeparatorMenuItem (started None (Some one_done))
    = Returns tt s'
    /\ In (lit "c") (todo_list s') /\ ~ In (lit "x b") (todo_list s').
Proof.
  destruct (clear_completed_handler_items (started None (Some one_done))
              one_done SeparatorMenuItem eq_refl eq_refl) as [s' [E [_ H]]].
  exists s'. split; [exact E|]. split.
  - apply H. split; [reflexivity|]. left.
    right; right; left; reflexivity.
  - intros I. apply H in I as [K _]. discriminate K.
Defined.

(** With a file that reads and a rewrite that can run, the check-off
    handler returns and loses no item: every listed item that does not
    match the label stays listed as it is, every non-empty one that
    matches is listed with the marker in front, and whatever is listed
    afterwards is the empty item, an item of the file that does not match,
    or a matching one with the marker in front. *)
Theorem check_off_handler_items (s : State) (text : str) (mi : MenuItem) :
  rewrite_blocked (host s) = None ->
  todo_file s = Some text ->
  exists s',
    check_off_handler mi s = Returns tt s'
    /\ (forall item,
          In item (loaded_list (task_filter s) text) ->
          strip item <> strip (get_label mi) ->
          In item (todo_list s'))
    /\ (forall item,
          In item (loaded_list (task_filter s) text) ->
          item <> [] -> strip item = strip (get_label mi) ->
          In (marker ++ item) (todo_list s'))
    /\ (forall p,
          In p (todo_list s') ->
          p = []
          \/ (In p (loaded_list (task_filter s) text)
              /\ strip p <> strip (get_label mi))
          \/ exists item,
               p = marker ++ item /\ In item (split_nl text)
               /\ strip item = strip (get_label mi)).
Proof.
  intros W F.
  rewrite (check_off_handler_opened s text (get_label mi) mi W F eq_refl).
  eexists. split; [reflexivity|].
  cbn [rebuilt todo_list task_filter set_todo_file].
  split; [|split].
  - intros item I N. apply loaded_list_In in I as [I O].
    apply loaded_list_In. split; [|exact O].
    destruct item as [|c item]; [apply check_off_pieces_empty|].
    generalize (check_off_pieces (get_label mi) text (c :: item) I).
    rewrite (strip_neq_eqb _ _ N). intros H. apply H. discriminate.
  - intros item I N E. apply loaded_list_In in I as [I O].
    apply loaded_list_In. split; [|exact (occurs_app_l _ item marker O)].
    generalize (check_off_pieces (get_label mi) text item I N).
    rewrite E, str_eqb_refl. auto.
  - intros p I. apply loaded_list_In in I as [I O].
    apply check_off_pieces_inv in I as [-> | [body [B E]]];
      [left; reflexivity|].
    destruct (str_eqb (strip body) (strip (get_label mi))) eqn:M; subst p.
    + right; right. exists body. apply str_eqb_eq in M. auto.
    + right; left. apply str_eqb_neq in M.
      split; [apply loaded_list_In; split; assumption | exact M].
Qed.

(** A click on [a] in the file with [a] and [b]: [b] stays, [x a] comes. *)
Lemma check_off_handler_items_witness :
  exists s',
    check_off_handler (todo_menu_item (lit "a")) (started None (Some two_items))
    = Returns tt s'
    /\ In (lit "b") (todo_list s') /\ In (lit "x a") (todo_list s').
Proof.
  destruct (check_off_handler_items (started None (Some two_items)) two_items
              (todo_menu_item (lit "a")) eq_refl eq_refl)
    as [s' [E [K [M _]]]].
  exists s'. split; [exact E|]. split.
  - apply K; [right; right; left; reflexivity | discriminate].
  - apply (M (lit "a")); [right; left; reflexivity | discriminate | reflexivity].
Defined.

(** With a file that reads and rewrites that can run, checking an item
    off and then clearing the completed items takes the item off the list,
    in either form, and keeps every other item that is not completed. *)
Theorem check_off_then_clear_completed
    (s : State) (text : str) (mi mi' : MenuItem) :
  rewrite_blocked (host s) = None ->
  todo_file s = Some text ->
  get_label mi <> [] ->
  is_completed (get_label mi) = false ->
  exists s1 s2,
    check_off_handler mi s = Returns tt s1
    /\ clear_completed_handler mi' s1 = Returns tt s2
    /\ ~ In (get_label mi) (todo_list s2)
    /\ ~ In (marker ++ get_label mi) (todo_list s2)
    /\ forall other,
         In other (loaded_list (task_filter s) text) ->
         is_completed other = false ->
         strip other <> strip (get_label mi) ->
         In other (todo_list s2).
Proof.
  intros W F N K.
  rewrite (check_off_handler_opened s text (get_label mi) mi W F eq_refl).
  set (t1 := concat (map (check_off_line (get_label mi)) (readlines text))).
  eexists. eexists. split; [reflexivity|].
  rewrite (clear_completed_handler_opened
             (rebuilt (set_todo_file (Some t1) s) t1) t1 mi' W eq_refl).
  split; [reflexivity|].
  cbn [rebuilt todo_list task_filter set_todo_file]. subst t1.
  split; [|split].
  - intros I. apply loaded_list_In in I as [I _].
    apply remove_checked_pieces_inv in I as [E | [I _]]; [contradiction|].
    apply check_off_pieces_inv in I as [E | [body [_ E]]]; [contradiction|].
    destruct (str_eqb (strip body) (strip (get_label mi))) eqn:M.
    + rewrite E in K. discriminate K.
    + rewrite <- E, str_eqb_refl in M. discriminate M.
  - intros I. apply loaded_list_In in I as [I _].
    apply remove_checked_pieces_inv in I as [E | [_ E]]; discriminate E.
  - intros other I C M. apply loaded_list_In in I as [I O].
    apply loaded_list_In. split; [|exact O].
    destruct other as [|c other]; [apply remove_checked_pieces_empty|].
    apply remove_checked_pieces; [|discriminate | exact C].
    generalize (check_off_pieces (get_label mi) text (c :: other) I).
    rewrite (strip_neq_eqb _ _ M). intros H. apply H. discriminate.
Qed.

(** [a] is checked off and cleared: [b] is what is left of the two. *)
Lemma check_off_then_clear_completed_witness :
  exists s1 s2,
    check_off_handler (todo_menu_item (lit "a")) (started None (Some two_items))
    = Returns tt s1
    /\ clear_completed_handler SeparatorMenuItem s1 = Returns tt s2
    /\ ~ In (lit "a") (todo_list s2)
    /\ In (lit "b") (todo_list s2).
Proof.
  destruct (check_off_then_clear_completed (started None (Some two_items))
              two_items (todo_menu_item (lit "a")) SeparatorMenuItem
              eq_refl eq_refl)
    as [s1 [s2 [E1 [E2 [A [_ B]]]]]]; [discriminate | reflexivity |].
  exists s1, s2. repeat split; [exact E1 | exact E2 | exact A |].
  apply B; [right; right; left; reflexivity | reflexivity | discriminate].
Defined.

End HandlerItems.

(** ** Clicking a todo item *)

Section ClickItem.

(** C9, as stated, fails for a completed item: the click on it is ignored
    and the item stays completed; had its handler run, it would have put a
    second marker in front, and no open item [a] would be listed. *)
Lemma click_on_completed_item_keeps_marker :
  ind showing_done = Some (build_menu [[]; lit "x a"])
  /\ In (todo_menu_item (lit "x a")) (build_menu [[]; lit "x a"])
  /\ is_completed (lit "x a") = true
  /\ click (todo_menu_item (lit "x a")) showing_done = Returns tt showing_done
  /\ todo_list
       (state_of (check_off_handler (todo_menu_item (lit "x a")) showing_done))
     = [[]; []; lit "x x a"].
Proof.
  split; [reflexivity|]. split; [right; left; reflexivity|].
  repeat split; reflexivity.
Qed.

(** C9, amended.  With a file that reads and a rewrite that can run: every
    item of the file that the menu shows has a menu item connected to the
    check-off handler; a click on an item that is not completed runs the
    handler, which writes every line of the file back, with [x ] in front
    when it matches the item, and rebuilds the menu from it, so that the
    item with [x ] in front is then listed (if the item is not the empty
    one); a completed item is shown insensitive, and a click on it changes
    nothing.  And nothing that the program does on a click removes a
    marker: after any callback but the one that starts the editor, each
    item of the file that is not completed is empty or was an item of the
    file before, and each completed item of the file is still there, as
    it was or with [x ] in front, unless the callback is the one that
    clears the completed items. *)
Theorem click_checks_off (s : State) (text : str) :
  todo_file s = Some text ->
  rewrite_blocked (host s) = None ->
  (forall item,
     In item (loaded_list (task_filter s) text) ->
     In (todo_menu_item item) (build_menu (loaded_list (task_filter s) text))
     /\ (is_completed item = false ->
          exists s',
            click (todo_menu_item item) s = Returns tt s'
            /\ todo_file s'
               = Some (concat
                         (map (fun line =>
                                 (if str_eqb (strip line) (strip item)
                                  then lit "x " ++ line else line) ++ nl)
                              (readlines text)))
            /\ ind s' = Some (build_menu (todo_list s'))
            /\ is_completed (lit "x " ++ item) = true
            /\ (item <> [] -> In (lit "x " ++ item) (todo_list s')))
     /\ (is_completed item = true ->
          todo_menu_item item = Item item false (Some check_off_handler_cb)
          /\ click (todo_menu_item item) s = Returns tt s))
  /\ (forall cb mi s',
        cb <> edit_handler_cb ->
        run_callback cb mi s = Returns tt s' ->
        exists text',
          todo_file s' = Some text'
          /\ (forall p,
                In p (split_nl text') -> is_completed p = false ->
                p = [] \/ In p (split_nl text))
          /\ (cb <> clear_completed_handler_cb ->
              forall p,
                In p (split_nl text) -> is_completed p = true ->
                In p (split_nl text') \/ In (lit "x " ++ p) (split_nl text'))).
Proof.
  intros F W. split.
  - intros item I. split; [|split].
    + unfold build_menu.
      destruct (loaded_list (task_filter s) text) as [|i l] eqn:E;
        [contradiction|].
      apply in_or_app. left. apply in_map. exact I.
    + intros C.
      assert (todo_menu_item item = Item item true (Some check_off_handler_cb))
        as -> by (unfold todo_menu_item; rewrite C; reflexivity).
      change (click (Item item true (Some check_off_handler_cb)) s)
        with (check_off_handler (Item item true (Some check_off_handler_cb)) s).
      rewrite (check_off_handler_opened s text item
                 (Item item true (Some check_off_handler_cb)) W F eq_refl).
      eexists. split; [reflexivity|].
      cbn [rebuilt todo_file todo_list ind task_filter set_todo_file].
      split; [|split; [reflexivity | split; [reflexivity|]]].
      * f_equal. f_equal. apply map_ext. intros line.
        apply check_off_line_text.
      * intros N. apply loaded_list_In. apply loaded_list_In in I as [I O].
        split; [apply check_off_marks; assumption|].
        exact (occurs_app_l (task_filter s) item marker O).
    + intros C. unfold click, todo_menu_item. rewrite C. split; reflexivity.
  - intros cb mi s' NE R. destruct cb; cbn [run_callback] in R.
    + rewrite (check_off_handler_opened s text (get_label mi) mi W F eq_refl) in R.
      injection R as <-. eexists. split; [reflexivity|]. split.
      * intros p I C. apply check_off_pieces_inv in I as [-> | [body [B E]]];
          [left; reflexivity|].
        destruct (str_eqb (strip body) (strip (get_label mi))); subst p.
        -- rewrite is_completed_marked in C. discriminate C.
        -- right. exact B.
      * intros _ p I C.
        assert (N : p <> []) by (intros ->; discriminate C).
        generalize (check_off_pieces (get_label mi) text p I N).
        destruct (str_eqb (strip p) (strip (get_label mi))); auto.
    + contradiction.
    + rewrite (clear_completed_handler_opened s text mi W F) in R.
      injection R as <-. eexists. split; [reflexivity|]. split.
      * intros p I C. apply remove_checked_pieces_inv in I as [-> | [I _]];
          [left; reflexivity | right; exact I].
      * intros N. contradiction.
    + unfold refresh_handler in R. rewrite (build_indicator_opened s text F) in R.
      injection R as <-. exists text. split; [reflexivity|]. split; auto.
    + unfold quit_handler, bind, modify in R. injection R as <-.
      exists text. split; [exact F|]. split; auto.
Qed.

(** A click on the open item [a] and a click on the completed [x a]; a
    click on [a] beside the completed [x b] leaves [x b] completed. *)
Lemma click_checks_off_witness :
  In (todo_menu_item (lit "a"))
     (build_menu (loaded_list [] two_items))
  /\ In (lit "x a")
        (todo_list (state_of (click (todo_menu_item (lit "a"))
                                (started None (Some two_items)))))
  /\ click (todo_menu_item (lit "x a")) showing_done = Returns tt showing_done
  /\ exists text',
       file_after (check_off_handler (todo_menu_item (lit "a"))
                     (started None (Some one_done)))
       = Some text'
       /\ (In (lit "x b") (split_nl text')
           \/ In (lit "x x b") (split_nl text')).
Proof.
  destruct (click_checks_off (started None (Some two_items)) two_items
              eq_refl eq_refl) as [H _].
  destruct (H (lit "a")) as [M [C _]]; [right; left; reflexivity|].
  split; [exact M|]. split.
  { destruct (C eq_refl) as [s' [E [_ [_ [_ L]]]]].
    rewrite E. apply L. discriminate. }
  split.
  { destruct (click_checks_off showing_done (lit "x a" ++ nl) eq_refl eq_refl)
      as [K _].
    destruct (K (lit "x a")) as [_ [_ D]]; [right; left; reflexivity|].
    apply (D eq_refl). }
  destruct (click_checks_off (started None (Some one_done)) one_done
              eq_refl eq_refl) as [_ K].
  destruct (K check_off_handler_cb (todo_menu_item (lit "a"))
              (state_of (check_off_handler (todo_menu_item (lit "a"))
                           (started None (Some one_done)))))
    as [text' [E [_ P]]]; [discriminate | vm_compute; reflexivity |].
  exists text'. split; [exact E|].
  apply P; [discriminate | right; left; reflexivity | reflexivity].
Defined.

(** C10: a line that matches the label is written with the marker in
    front whether or not it begins with the marker already.  So checking
    an item off and then checking off the marked item leaves the item with
    two markers in the file; at the file with the one item [a], the second
    run turns the line [x a] that the first run wrote into [x x a]. *)
Theorem check_off_marks_again :
  (forall label line, strip line = strip label ->
     check_off_line label line = marker ++ line ++ nl)
  /\ (forall s text item,
        rewrite_blocked (host s) = None ->
        todo_file s = Some text -> In item (split_nl text) -> item <> [] ->
        exists s1 s2 text2,
          check_off_item_with_label item s = Returns tt s1
          /\ check_off_item_with_label (marker ++ item) s1 = Returns tt s2
          /\ todo_file s2 = Some text2
          /\ In (marker ++ marker ++ item) (split_nl text2))
  /\ file_after (check_off_item_with_label (lit "a") showing_a)
     = Some (lit "x a" ++ nl ++ nl)
  /\ file_after
       (check_off_item_with_label (lit "x a")
          (state_of (check_off_item_with_label (lit "a") showing_a)))
     = Some (lit "x x a" ++ nl ++ nl ++ nl ++ nl).
Proof.
  split; [|split; [|split; reflexivity]].
  - intros label line E. unfold check_off_line, print_text.
    rewrite E, str_eqb_refl. rewrite <- app_assoc. reflexivity.
  - intros s text item W F I N. unfold check_off_item_with_label.
    rewrite (fileinput_inplace_text _ _ _ W F).
    eexists. eexists. eexists. split; [reflexivity|].
    split; [apply fileinput_inplace_text; [exact W | reflexivity]|].
    split; [reflexivity|].
    apply check_off_marks; [|apply marked_not_empty].
    apply check_off_marks; assumption.
Qed.

(** A line with the marker gets one more; [a] checked off twice. *)
Lemma check_off_marks_again_witness :
  check_off_line (lit "x a") (lit " x a" ++ nl) = lit "x  x a" ++ nl ++ nl
  /\ exists s1 s2 text2,
       check_off_item_with_label (lit "a") (started None (Some two_items))
       = Returns tt s1
       /\ check_off_item_with_label (lit "x a") s1 = Returns tt s2
       /\ todo_file s2 = Some text2
       /\ In (lit "x x a") (split_nl text2).
Proof.
  destruct check_off_marks_again as [L [H _]]. split.
  - apply (L (lit "x a") (lit " x a" ++ nl)). reflexivity.
  - apply (H (started None (Some two_items)) two_items (lit "a"));
      [reflexivity | reflexivity | left; reflexivity | discriminate].
Defined.

End ClickItem.

(** ** More on the loader *)

Section LoaderOrder.

Lemma str_ltb_app_r (b p a : str) :
  str_ltb b p = true -> str_ltb b (p ++ a) = true.
Proof.
  revert p; induction b as [|x b IH]; intros [|y p]; simpl;
    try discriminate; try reflexivity.
  destruct (nat_of_ascii x <? nat_of_ascii y)%nat; [reflexivity|].
  destruct (Ascii.eqb x y); [apply IH | discriminate].
Qed.

Lemma completed_last_sorted (l : list str) :
  StronglySorted (key_le sort_key) l ->
  (forall x, In x l -> is_completed x = false ->
             str_ltb x (repeat "z"%char 10) = true) ->
  completed_last l = true.
Proof.
  induction 1 as [|x l S IH F]; intros B; [reflexivity|].
  cbn [completed_last]. apply andb_true_iff. split.
  - destruct (is_completed x) eqn:C; [|reflexivity].
    apply forallb_forall. intros y Y.
    destruct (is_completed y) eqn:D; [reflexivity|].
    rewrite Forall_forall in F. specialize (F y Y).
    unfold key_le, str_le, sort_key in F. rewrite C, D in F.
    rewrite str_ltb_app_r in F; [discriminate F|].
    apply B; [right; exact Y | exact D].
  - apply IH. intros y Y. apply B. right; exact Y.
Qed.

(** When every item of the file that is not completed sorts below ten
    [z], the loaded list has all its completed items after all the
    others. *)
Theorem loaded_list_completed_last (flt text : str) :
  (forall item, In item (split_nl text) -> is_completed item = false ->
                str_ltb item (repeat "z"%char 10) = true) ->
  completed_last (loaded_list flt text) = true.
Proof.
  intros B. apply completed_last_sorted.
  - apply sorted_StronglySorted.
  - intros x I. apply loaded_list_In in I as [I _]. apply B. exact I.
Qed.

(** The file with [b], the completed [x a], and [a]. *)
Lemma loaded_list_completed_last_witness :
  completed_last
    (loaded_list [] (lit "b" ++ nl ++ lit "x a" ++ nl ++ lit "a" ++ nl))
  = true.
Proof.
  apply loaded_list_completed_last.
  intros item I C.
  destruct I as [<- | [<- | [<- | [<- | []]]]];
    try reflexivity; discriminate C.
Defined.

Lemma check_item_for_filter_empty (item : str) :
  check_item_for_filter [] item = true.
Proof. destruct item; reflexivity. Qed.

Lemma filter_all {A : Type} (p : A -> bool) (l : list A) :
  (forall x, p x = true) -> filter p l = l.
Proof.
  intros H. induction l as [|x l IH]; simpl; [reflexivity|].
  rewrite H, IH. reflexivity.
Qed.

(** The loader lists the pieces of the text that pass the filter, each as
    often as it is there, and nothing else; without a filter it lists every
    piece of the text, the empty ones too. *)
Theorem loaded_list_permutation (flt text : str) :
  Permutation (filter (check_item_for_filter flt) (split_nl text))
              (loaded_list flt text)
  /\ Permutation (split_nl text) (loaded_list [] text)
  /\ length (loaded_list [] text) = length (split_nl text).
Proof.
  split; [apply sorted_perm|].
  assert (P : Permutation (split_nl text) (loaded_list [] text)).
  { unfold loaded_list.
    rewrite (filter_all _ _ check_item_for_filter_empty). apply sorted_perm. }
  split; [exact P | symmetry; apply Permutation_length; exact P].
Qed.

End LoaderOrder.

(** ** Events and ticks *)

Section Coalescing.

Lemma deliver_flag (events : list Event) (s : State) :
  deliver events s
  = Returns tt (if existsb (for_todo_file s) events
                then set_list_updated_flag true s else s).
Proof.
  revert s; induction events as [|event events IH]; intros s; [reflexivity|].
  cbn [deliver existsb]. unfold bind at 1, process_inotify_event, bind, get.
  unfold for_todo_file at 1.
  destruct (str_eqb (pathname event) (todo_filename s)) eqn:E.
  - unfold modify. rewrite IH. cbn [orb].
    change (for_todo_file (set_list_updated_flag true s)) with (for_todo_file s).
    destruct (existsb (for_todo_file s) events); reflexivity.
  - unfold ret. rewrite IH. reflexivity.
Qed.

(** Events coalesce: with the flag unset and the file readable, any
    number of events followed by a tick rebuilds the menu once when one
    of the events is for the todo file and not at all otherwise; the tick
    leaves the flag unset, and a second tick changes nothing. *)
Theorem events_then_tick (s : State) (text : str) (events : list Event) :
  todo_file s = Some text ->
  list_updated_flag s = false ->
  exists s1 s2,
    deliver events s = Returns tt s1
    /\ update_if_todo_file_changed s1 = Returns true s2
    /\ update_if_todo_file_changed s2 = Returns true s2
    /\ list_updated_flag s2 = false
    /\ rebuilds s2
       = (if existsb (for_todo_file s) events
          then S (rebuilds s) else rebuilds s)
    /\ (existsb (for_todo_file s) events = true ->
        todo_list s2 = loaded_list (task_filter s) text).
Proof.
  intros F G. rewrite deliver_flag.
  destruct (existsb (for_todo_file s) events).
  - eexists. eexists. split; [reflexivity|].
    unfold update_if_todo_file_changed at 1, bind, get.
    cbn [list_updated_flag set_list_updated_flag].
    rewrite (build_indicator_opened (set_list_updated_flag true s) text F).
    split; [reflexivity|]. split; [reflexivity|]. split; [reflexivity|].
    split; [|reflexivity].
    unfold rebuilds. simpl. rewrite !filter_app, !length_app.
    destruct (ind s); simpl; lia.
  - exists s, s.
    assert (T : update_if_todo_file_changed s = Returns true s)
      by (unfold update_if_todo_file_changed, bind, get; rewrite G; reflexivity).
    repeat split; try assumption. discriminate.
Qed.

(** Three events, two of them for the todo file, then the tick. *)
Lemma events_then_tick_witness :
  exists s1 s2,
    deliver [ {| pathname := lit "/home/user/todo.txt"; mask := 2 |};
              {| pathname := lit "/home/user/notes.txt"; mask := 2 |};
              {| pathname := lit "/home/user/todo.txt"; mask := 128 |} ]
            (started None (Some two_items))
    = Returns tt s1
    /\ update_if_todo_file_changed s1 = Returns true s2
    /\ rebuilds s2 = 2%nat.
Proof.
  destruct (events_then_tick (started None (Some two_items)) two_items
              [ {| pathname := lit "/home/user/todo.txt"; mask := 2 |};
                {| pathname := lit "/home/user/notes.txt"; mask := 2 |};
                {| pathname := lit "/home/user/todo.txt"; mask := 128 |} ]
              eq_refl eq_refl) as [s1 [s2 [E1 [E2 [_ [_ [R _]]]]]]].
  exists s1, s2. repeat split; [exact E1 | exact E2 | exact R].
Defined.

End Coalescing.

(** ** Start-up, callbacks and the menu *)

Section Callbacks.

(** [__init__] on a file that opens and reads returns with the flag
    unset, the list loaded and exactly one menu set.  On a file whose
    opening or reading raises an I/O error it ends the process with status
    1 after creating the indicator and printing the message, with no menu
    set; on a file that does not decode the decoding error leaves
    [__init__] uncaught after the indicator is created, with nothing
    printed and no menu set.  No editor, or an empty one, gives the default
    editor, and no filter is the empty filter. *)
Theorem init_outcome
    (name : str) (editor flt : option str) (file : option str) (h : Host) :
  match file with
  | Some text =>
      exists s,
        init name editor flt file h = Returns tt s
        /\ list_updated_flag s = false
        /\ todo_list s = loaded_list (task_filter s) text
        /\ ind s = Some (build_menu (todo_list s))
        /\ effects s = [IndicatorNew; SetMenu (build_menu (todo_list s))]
        /\ rebuilds s = 1%nat
  | None =>
      match read_fails h with
      | OpenRaises | ReadRaises =>
          exists s,
            init name editor flt file h = Raises (SystemExit 1) s
            /\ effects s
               = [IndicatorNew;
                  Printed (lit "Error opening file:" ++ nl ++ name ++ nl)]
            /\ rebuilds s = 0%nat
      | DecodeRaises =>
          exists s,
            init name editor flt file h = Raises UnicodeDecodeError s
            /\ effects s = [IndicatorNew]
            /\ rebuilds s = 0%nat
      end
  end
  /\ todo_filename (state_of (init name editor flt file h)) = name
  /\ task_filter (state_of (init name editor flt file h))
     = match flt with Some f => f | None => [] end
  /\ text_editor (state_of (init name editor flt file h))
     = match editor with
       | Some (c :: e) => c :: e
       | _ => DEFAULT_EDITOR
       end.
Proof.
  unfold init. destruct file as [text|].
  - match goal with |- context [build_indicator ?st] => set (s0 := st) end.
    rewrite (build_indicator_opened s0 text eq_refl).
    split; [eexists; repeat split|].
    split; [reflexivity|]. split; [|reflexivity].
    destruct flt as [[|c f]|]; reflexivity.
  - match goal with |- context [build_indicator ?st] => set (s0 := st) end.
    destruct (read_fails h) eqn:R.
    + rewrite (build_indicator_failed s0 eq_refl)
        by (unfold s0; cbn [host]; rewrite R; discriminate).
      split; [eexists; repeat split|].
      split; [reflexivity|]. split; [|reflexivity].
      destruct flt as [[|c f]|]; reflexivity.
    + rewrite (build_indicator_failed s0 eq_refl)
        by (unfold s0; cbn [host]; rewrite R; discriminate).
      split; [eexists; repeat split|].
      split; [reflexivity|]. split; [|reflexivity].
      destruct flt as [[|c f]|]; reflexivity.
    + rewrite (build_indicator_undecodable s0 eq_refl)
        by (unfold s0; cbn [host]; exact R).
      split; [eexists; repeat split|].
      split; [reflexivity|]. split; [|reflexivity].
      destruct flt as [[|c f]|]; reflexivity.
Qed.

(** With a file that reads and a rewrite that can run, every callback of
    the menu returns.  When the rewrite cannot run or the file does not
    read, checking off and clearing raise an error that is not an exit
    before anything is rebuilt or printed and leave the attributes of the
    indicator as they were.  When opening or reading the file raises an
    I/O error, refreshing prints the message and ends the process with
    status 1; when the file does not decode, refreshing raises the
    decoding error.  Starting the editor and quitting always return. *)
Theorem callbacks_outcome (s : State) (mi : MenuItem) :
  (forall text,
     todo_file s = Some text -> rewrite_blocked (host s) = None ->
     forall cb, exists s', run_callback cb mi s = Returns tt s')
  /\ (rewrite_blocked (host s) <> None \/ todo_file s = None ->
        (exists e s',
           check_off_handler mi s = Raises e s'
           /\ (forall code, e <> SystemExit code)
           /\ same_attributes s s' /\ effects s' = effects s)
        /\ (exists e s',
              clear_completed_handler mi s = Raises e s'
              /\ (forall code, e <> SystemExit code)
              /\ same_attributes s s' /\ effects s' = effects s))
  /\ (todo_file s = None -> read_fails (host s) <> DecodeRaises ->
        refresh_handler mi s = Raises (SystemExit 1) (exited s))
  /\ (todo_file s = None -> read_fails (host s) = DecodeRaises ->
        refresh_handler mi s = Raises UnicodeDecodeError (undecoded s))
  /\ (exists s', edit_handler mi s = Returns tt s')
  /\ (exists s', quit_handler mi s = Returns tt s').
Proof.
  split; [|split; [|split; [|split; [|split]]]].
  - intros text F W [| | | |]; cbn [run_callback].
    + rewrite (check_off_handler_opened s text (get_label mi) mi W F eq_refl).
      eauto.
    + unfold edit_handler, bind, get, modify. eauto.
    + rewrite (clear_completed_handler_opened s text mi W F). eauto.
    + unfold refresh_handler. rewrite (build_indicator_opened s text F). eauto.
    + unfold quit_handler, bind, modify. eauto.
  - intros H. split.
    + destruct (fileinput_inplace_raises (check_off_line (get_label mi)) s H)
        as [e [s' [E [N [A1 [A2 [A3 [A4 [A5 [A6 P]]]]]]]]]].
      exists e, s'. unfold check_off_handler, bind, check_off_item_with_label.
      rewrite E. unfold same_attributes. repeat split; assumption.
    + destruct (fileinput_inplace_raises remove_checked_line s H)
        as [e [s' [E [N [A1 [A2 [A3 [A4 [A5 [A6 P]]]]]]]]]].
      exists e, s'. unfold clear_completed_handler, bind, remove_checked_off_items.
      rewrite E. unfold same_attributes. repeat split; assumption.
  - intros F R. apply build_indicator_failed; assumption.
  - intros F R. apply build_indicator_undecodable; assumption.
  - unfold edit_handler, bind, get, modify. eauto.
  - unfold quit_handler, bind, modify. eauto.
Qed.

(** The callbacks with the file in place, in a directory that refuses the
    rewrite, and with the file gone. *)
Lemma callbacks_outcome_witness :
  (exists s', run_callback clear_completed_handler_cb SeparatorMenuItem
                (started None (Some one_done)) = Returns tt s')
  /\ (exists e s',
        check_off_handler (todo_menu_item (lit "a")) not_rewritable
        = Raises e s'
        /\ effects s' = effects not_rewritable)
  /\ refresh_handler SeparatorMenuItem without_file
     = Raises (SystemExit 1) (exited without_file)
  /\ refresh_handler SeparatorMenuItem flagged_undecodable
     = Raises UnicodeDecodeError (undecoded flagged_undecodable).
Proof.
  split; [|split; [|split]].
  - destruct (callbacks_outcome (started None (Some one_done)) SeparatorMenuItem)
      as [H _].
    apply (H one_done eq_refl eq_refl).
  - destruct (callbacks_outcome not_rewritable (todo_menu_item (lit "a")))
      as [_ [H _]].
    assert (B : rewrite_blocked (host not_rewritable) <> None)
      by (unfold not_rewritable, set_host; cbn [host rewrite_blocked];
          discriminate).
    destruct (H (or_introl B)) as [[e [s' [E [_ [_ P]]]]] _].
    exists e, s'. split; [exact E | exact P].
  - destruct (callbacks_outcome without_file SeparatorMenuItem)
      as [_ [_ [H _]]].
    apply (H eq_refl). discriminate.
  - destruct (callbacks_outcome flagged_undecodable SeparatorMenuItem)
      as [_ [_ [_ [H _]]]].
    apply (H eq_refl eq_refl).
Defined.

(** The program writes the file in the two rewrites only: the load, the
    rebuild, the tick, the watcher callback and the callbacks for
    refreshing and quitting leave its text as it is, whether they return
    or raise, and so does a click on an insensitive entry or a separator. *)
Theorem file_written_by_rewrites_only
    (s : State) (mi : MenuItem) (event : Event) :
  file_after (load_todo_file s) = todo_file s
  /\ file_after (build_indicator s) = todo_file s
  /\ file_after (update_if_todo_file_changed s) = todo_file s
  /\ file_after (process_inotify_event event s) = todo_file s
  /\ file_after (refresh_handler mi s) = todo_file s
  /\ file_after (quit_handler mi s) = todo_file s
  /\ (forall label cb, click (Item label false cb) s = Returns tt s)
  /\ click SeparatorMenuItem s = Returns tt s.
Proof.
  assert (B : file_after (build_indicator s) = todo_file s).
  { destruct (todo_file s) as [text|] eqn:F.
    - rewrite (build_indicator_opened s text F). reflexivity.
    - destruct (read_failure_cases (read_fails (host s))) as [R | R].
      + rewrite (build_indicator_failed s F R). reflexivity.
      + rewrite (build_indicator_undecodable s F R). reflexivity. }
  split; [|split; [exact B | split; [|split; [|split; [exact B|]]]]].
  - destruct (todo_file s) as [text|] eqn:F.
    + rewrite (load_todo_file_opened s text F). exact F.
    + destruct (read_failure_cases (read_fails (host s))) as [R | R].
      * rewrite (load_todo_file_failed s F R). exact F.
      * rewrite (load_todo_file_undecodable s F R). exact F.
  - unfold update_if_todo_file_changed, bind, get.
    destruct (list_updated_flag s); [|reflexivity].
    destruct (todo_file s) as [text|] eqn:F.
    + rewrite (build_indicator_opened s text F). reflexivity.
    + destruct (read_failure_cases (read_fails (host s))) as [R | R].
      * rewrite (build_indicator_failed s F R). reflexivity.
      * rewrite (build_indicator_undecodable s F R). reflexivity.
  - unfold process_inotify_event, bind, get.
    destruct (str_eqb (pathname event) (todo_filename s)); reflexivity.
  - repeat split.
Qed.

(** In the menu built from a list, the entries for todo items are the
    items of the list, sensitive exactly when the item is not completed;
    the placeholder is shown exactly for the empty list; and the menu ends
    with the separator and the four fixed entries, after as many entries
    as the list has items, or one. *)
Theorem build_menu_entries (items : list str) :
  (forall label sens,
     In (Item label sens (Some check_off_handler_cb)) (build_menu items)
     <-> In label items /\ sens = negb (is_completed label))
  /\ (In no_items (build_menu items) <-> items = [])
  /\ exists front,
       build_menu items
       = front
         ++ [ SeparatorMenuItem;
              Item (lit "Edit todo.txt") true (Some edit_handler_cb);
              Item (lit "Clear completed") true (Some clear_completed_handler_cb);
              Item (lit "Refresh") true (Some refresh_handler_cb);
              Item (lit "Quit") true (Some quit_handler_cb) ]
       /\ length front = Nat.max 1 (length items).
Proof.
  split; [|split].
  - intros label sens. unfold build_menu. rewrite in_app_iff. split.
    + intros [I | I].
      * destruct items as [|i items]; [destruct I as [I | []]; discriminate I|].
        apply in_map_iff in I as [x [E I]]. unfold todo_menu_item in E.
        injection E as <- <-. split; [exact I | reflexivity].
      * simpl in I. decompose [or] I; try discriminate; contradiction.
    + intros [I ->]. left. destruct items as [|i items]; [contradiction|].
      apply (in_map todo_menu_item) in I. exact I.
  - unfold build_menu. rewrite in_app_iff. split.
    + intros [I | I].
      * destruct items as [|i items]; [reflexivity|].
        apply in_map_iff in I as [x [E _]]. discriminate E.
      * simpl in I. decompose [or] I; try discriminate; contradiction.
    + intros ->. left. left. reflexivity.
  - unfold build_menu. eexists. split; [reflexivity|].
    destruct items as [|i items]; [reflexivity|].
    rewrite length_map. reflexivity.
Qed.

End Callbacks.

(** ** The states of a run *)

Section Runs.

Lemma build_indicator_returns (s s' : State) :
  build_indicator s = Returns tt s' ->
  menu_consistent s' /\ same_config s s'.
Proof.
  destruct (todo_file s) as [text|] eqn:F.
  - rewrite (build_indicator_opened s text F). intros E. injection E as <-.
    split; [split; [reflexivity | exists text; reflexivity]|].
    repeat split.
  - destruct (read_failure_cases (read_fails (host s))) as [R | R].
    + rewrite (build_indicator_failed s F R). discriminate.
    + rewrite (build_indicator_undecodable s F R). discriminate.
Qed.

Lemma fileinput_inplace_returns (body : str -> str) (s s' : State) :
  fileinput_inplace body s = Returns tt s' ->
  exists file, s' = set_todo_file file s.
Proof.
  unfold fileinput_inplace.
  destruct (rewrite_blocked (host s)) as [[|]|]; try discriminate.
  destruct (todo_file s) as [text|].
  - intros E. injection E as <-. eauto.
  - discriminate.
Qed.

Lemma rewrite_then_build (body : str -> str) (s s' : State) :
  bind (fileinput_inplace body) (fun _ => build_indicator) s = Returns tt s' ->
  menu_consistent s' /\ same_config s s'.
Proof.
  unfold bind. destruct (fileinput_inplace body s) as [[] s1|e s1] eqn:E;
    [|discriminate].
  apply fileinput_inplace_returns in E as [file ->].
  intros B. apply build_indicator_returns in B as [M C]. split; [exact M|].
  exact C.
Qed.

Lemma run_callback_returns (cb : callback) (mi : MenuItem) (s s' : State) :
  menu_consistent s ->
  run_callback cb mi s = Returns tt s' ->
  menu_consistent s' /\ same_config s s'.
Proof.
  intros M. destruct cb; cbn [run_callback].
  - apply rewrite_then_build.
  - unfold edit_handler, bind, get, modify. intros E. injection E as <-.
    split; [exact M | repeat split].
  - apply rewrite_then_build.
  - apply build_indicator_returns.
  - unfold quit_handler, bind, modify. intros E. injection E as <-.
    split; [exact M | repeat split].
Qed.

Lemma click_returns (mi : MenuItem) (s s' : State) :
  menu_consistent s ->
  click mi s = Returns tt s' ->
  menu_consistent s' /\ same_config s s'.
Proof.
  intros M. destruct mi as [label [|] [cb|]|]; cbn [click];
    try (intros E; injection E as <-; split; [exact M | repeat split]).
  apply run_callback_returns. exact M.
Qed.

Lemma tick_returns (b : bool) (s s' : State) :
  menu_consistent s ->
  update_if_todo_file_changed s = Returns b s' ->
  menu_consistent s' /\ same_config s s'.
Proof.
  intros M. unfold update_if_todo_file_changed, bind, get.
  destruct (list_updated_flag s).
  - destruct (build_indicator s) as [[] s1|e s1] eqn:B; [|discriminate].
    apply build_indicator_returns in B as [M1 C1].
    unfold modify, ret. intros E. injection E as _ <-.
    split; [exact M1 | exact C1].
  - unfold ret. intros E. injection E as _ <-.
    split; [exact M | repeat split].
Qed.

Lemma event_returns (event : Event) (s s' : State) :
  menu_consistent s ->
  process_inotify_event event s = Returns tt s' ->
  menu_consistent s' /\ same_config s s'.
Proof.
  intros M. unfold process_inotify_event, bind, get.
  destruct (str_eqb (pathname event) (todo_filename s));
    intros E; injection E as <-; split; try exact M; repeat split.
Qed.

Lemma same_config_trans (a b c : State) :
  same_config a b -> same_config b c -> same_config a c.
Proof.
  unfold same_config. intros [E1 [F1 N1]] [E2 [F2 N2]].
  repeat split; congruence.
Qed.

(** Throughout a run that [__init__] starts, whatever the user clicks,
    whenever the poll ticks, whatever the watcher reports and whatever
    other programs do to the file: the menu on display is the menu of the
    loaded list, the loaded list is a loading with the filter in use, and
    the editor, the filter and the path are those of the start. *)
Theorem run_keeps_menu_consistent
    (name : str) (editor flt file : option str) (h : Host) (s0 s : State) :
  init name editor flt file h = Returns tt s0 ->
  reachable s0 s ->
  menu_consistent s /\ same_config s0 s.
Proof.
  intros I R. apply build_indicator_returns in I as [M0 _].
  induction R as [|s s' mi R [M C] E|s s' b R [M C] E|s s' event R [M C] E
                  |s f R [M C]|s h' R [M C]].
  - split; [exact M0 | repeat split].
  - destruct (click_returns mi s s' M E) as [M' C'].
    split; [exact M' | exact (same_config_trans _ _ _ C C')].
  - destruct (tick_returns b s s' M E) as [M' C'].
    split; [exact M' | exact (same_config_trans _ _ _ C C')].
  - destruct (event_returns event s s' M E) as [M' C'].
    split; [exact M' | exact (same_config_trans _ _ _ C C')].
  - split; [exact M | exact C].
  - split; [exact M | exact C].
Qed.

(** A run: start, a click on [a], the file removed, an event. *)
Lemma run_keeps_menu_consistent_witness :
  menu_consistent
    (set_list_updated_flag true
       (set_todo_file None
          (state_of (click (todo_menu_item (lit "a"))
                       (started None (Some two_items))))))
  /\ same_config (started None (Some two_items))
       (set_list_updated_flag true
          (set_todo_file None
             (state_of (click (todo_menu_item (lit "a"))
                          (started None (Some two_items)))))).
Proof.
  refine (run_keeps_menu_consistent (lit "/home/user/todo.txt") None None
            (Some two_items) plain_host (started None (Some two_items)) _ _ _).
  - vm_compute. reflexivity.
  - refine (reach_event _
              (set_todo_file None
                 (state_of (click (todo_menu_item (lit "a"))
                              (started None (Some two_items)))))
              _ {| pathname := lit "/home/user/todo.txt"; mask := 2 |} _ _).
    + apply reach_write.
      refine (reach_click _ (started None (Some two_items)) _
                (todo_menu_item (lit "a")) _ _).
      * apply reach_start.
      * vm_compute. reflexivity.
    + vm_compute. reflexivity.
Defined.

End Runs.
